(** * SocialSpark: task lifecycle, receive/dispatch runtime, deferred
    publication and content adaptation.

    A shallow embedding of the Python sources
      - src/core/models.py, src/core/agent.py, src/core/storage.py,
        src/core/utils.py
      - src/agents/content_scheduler/{models,adapters,storage,agent}.py
    with the properties the specification states about them.

    Conventions.
      - Python objects that are mutated through several references (the
        [Task] held by [self.tasks], by the background job and by the
        caller) live in a heap of objects; a reference is a [nat].
      - [datetime.now()] is the [now] argument of every operation.
      - A Python [str] is a [string]; the adapters work on its characters
        ([list ascii]), restricted to ASCII text.
      - An exception is represented by its [str(e)] text. *)

From Stdlib Require Import ZArith Ascii String List Lia Bool.
From stdpp Require Import base option list gmap strings.

Set Warnings "-register-all".
#[local] Open Scope string_scope.

(* ===================================================================== *)
(** ** src/core/models.py *)
(* ===================================================================== *)

Module Models.

(** [class TaskStatus(str, Enum)] *)
Inductive TaskStatus := PENDING | IN_PROGRESS | COMPLETED | FAILED | CANCELED.

#[global] Instance TaskStatus_eq_dec : EqDecision TaskStatus.
Proof. solve_decision. Defined.

(** The enum's value, [TaskStatus.X.value]. *)
Definition TaskStatus_value (s : TaskStatus) : string :=
  match s with
  | PENDING => "pending"
  | IN_PROGRESS => "in_progress"
  | COMPLETED => "completed"
  | FAILED => "failed"
  | CANCELED => "canceled"
  end.

(** [TaskStatus(value)]: the member with that value; [None] stands for the
    [ValueError] Python raises on any other string. *)
Definition TaskStatus_of_value (v : string) : option TaskStatus :=
  if String.eqb v "pending" then Some PENDING
  else if String.eqb v "in_progress" then Some IN_PROGRESS
  else if String.eqb v "completed" then Some COMPLETED
  else if String.eqb v "failed" then Some FAILED
  else if String.eqb v "canceled" then Some CANCELED
  else None.

(** A value of type [Any] as it arrives in a JSON body.  Numbers are
    integers; a dict keeps its insertion order and has distinct keys. *)
Inductive json :=
  | JNull
  | JBool (b : bool)
  | JNum (n : Z)
  | JStr (s : string)
  | JList (l : list json)
  | JDict (d : list (string * json)).

(** Python truthiness, [bool(v)]. *)
Definition truthy (v : json) : bool :=
  match v with
  | JNull => false
  | JBool b => b
  | JNum n => negb (Z.eqb n 0)
  | JStr s => negb (String.eqb s "")
  | JList l => match l with [] => false | _ => true end
  | JDict d => match d with [] => false | _ => true end
  end.

(** [d.get(key)] on a dict: [None] when the key is absent. *)
Fixpoint dict_get (d : list (string * json)) (key : string) : json :=
  match d with
  | [] => JNull
  | (k, v) :: rest => if String.eqb k key then v else dict_get rest key
  end.

(** [d.get(key, default)] *)
Fixpoint dict_get_default (d : list (string * json)) (key : string)
    (default : json) : json :=
  match d with
  | [] => default
  | (k, v) :: rest =>
      if String.eqb k key then v else dict_get_default rest key default
  end.

(** [class DataPart(BaseModel)] *)
Record DataPart := mkDataPart {
  dp_id : string;
  content_type : string;
  data : list (string * json);
  dp_metadata : option (list (string * json))
}.

(** [class Task(BaseModel)].  Times are instants on an integer clock. *)
Record Task := mkTask {
  task_id : string;
  type : string;
  status : TaskStatus;
  created_at : Z;
  updated_at : Z;
  source_agent_id : string;
  target_agent_id : string;
  data_parts : list DataPart;
  parent_task_id : option string;
  metadata : option (gmap string json)
}.

Definition set_status (t : Task) (s : TaskStatus) : Task :=
  mkTask (task_id t) (type t) s (created_at t) (updated_at t)
         (source_agent_id t) (target_agent_id t) (data_parts t)
         (parent_task_id t) (metadata t).

Definition set_updated_at (t : Task) (now : Z) : Task :=
  mkTask (task_id t) (type t) (status t) (created_at t) now
         (source_agent_id t) (target_agent_id t) (data_parts t)
         (parent_task_id t) (metadata t).

Definition set_metadata (t : Task) (m : option (gmap string json)) : Task :=
  mkTask (task_id t) (type t) (status t) (created_at t) (updated_at t)
         (source_agent_id t) (target_agent_id t) (data_parts t)
         (parent_task_id t) m.

(** [Task.add_data_part] *)
Definition add_data_part (t : Task) (dp : DataPart) (now : Z) : Task :=
  mkTask (task_id t) (type t) (status t) (created_at t) now
         (source_agent_id t) (target_agent_id t) (data_parts t ++ [dp])
         (parent_task_id t) (metadata t).

(** [Task.update_status]:
<<
    self.status = status
    self.updated_at = datetime.now()
>> *)
Definition update_status (t : Task) (s : TaskStatus) (now : Z) : Task :=
  set_updated_at (set_status t s) now.

(** A task with its [updated_at] set aside, to compare two tasks in all
    other fields. *)
Definition erase_updated_at (t : Task) : Task := set_updated_at t 0.

(** [not task.metadata]: [None] and the empty dict are both falsy. *)
Definition metadata_falsy (m : option (gmap string json)) : bool :=
  match m with
  | None => true
  | Some d => Nat.eqb (size d) 0
  end.

(** The recurring idiom
<<
    if not task.metadata:
        task.metadata = {}
    task.metadata[key] = value
>> *)
Definition metadata_set (t : Task) (key : string) (value : json) : Task :=
  let m := if metadata_falsy (metadata t) then ∅
           else default ∅ (metadata t) in
  set_metadata t (Some (<[key := value]> m)).

(** The states no edge of the lifecycle leaves. *)
Definition terminal (s : TaskStatus) : bool :=
  match s with
  | COMPLETED | FAILED | CANCELED => true
  | PENDING | IN_PROGRESS => false
  end.

(** The edges of the lifecycle as the specification draws it:
    pending -> in_progress -> {completed, failed}, pending -> canceled. *)
Definition edge (s s' : TaskStatus) : bool :=
  match s, s' with
  | PENDING, IN_PROGRESS => true
  | IN_PROGRESS, COMPLETED => true
  | IN_PROGRESS, FAILED => true
  | PENDING, CANCELED => true
  | _, _ => false
  end.

End Models.

(* ===================================================================== *)
(** ** src/core/agent.py *)
(* ===================================================================== *)

Module Agent.
Import Models.

(** How a handler call ends: it returns, or an [Exception] [e] leaves it;
    [msg] is [str(e)]. *)
Inductive Outcome :=
  | Returns
  | Raises (msg : string).

(** [HTTPException(status_code, detail)] *)
Record HTTPException := mkHTTPException {
  status_code : Z;
  detail : string
}.

Section BaseAgent.

(** The state a subclass adds to [BaseAgent] (stores, scheduler, queue). *)
Context {W : Type}.

(** Names for which [hasattr(task, name)] holds although they are no
    field: the methods of [Task] and what it inherits from
    [pydantic.BaseModel] and from [object].  Assigning to one of them
    raises, unless the name starts with an underscore (see [setattr]). *)
Variable method_name : string -> bool.

(** [Callable[[Task], Awaitable[None]]]: a handler works on the task object
    it is given and on the agent's own state, and returns or raises. *)
Definition Handler : Type := Task -> W -> Z -> Task * W * Outcome.

(** [class BaseAgent]: the fields the task endpoints use.
    [tasks] maps a task id to the object stored under it, [heap] holds the
    objects, [background] the [_process_task] calls that FastAPI's
    [BackgroundTasks] has still to run, in order. *)
Record Agent := mkAgent {
  agent_id : string;
  task_handlers : gmap string Handler;
  tasks : gmap string nat;
  heap : gmap nat Task;
  background : list nat;
  ext : W
}.

Definition with_handlers (a : Agent) (h : gmap string Handler) : Agent :=
  mkAgent (agent_id a) h (tasks a) (heap a) (background a) (ext a).

Definition with_tasks (a : Agent) (m : gmap string nat) : Agent :=
  mkAgent (agent_id a) (task_handlers a) m (heap a) (background a) (ext a).

Definition with_heap (a : Agent) (h : gmap nat Task) : Agent :=
  mkAgent (agent_id a) (task_handlers a) (tasks a) h (background a) (ext a).

Definition with_background (a : Agent) (b : list nat) : Agent :=
  mkAgent (agent_id a) (task_handlers a) (tasks a) (heap a) b (ext a).

Definition with_ext (a : Agent) (w : W) : Agent :=
  mkAgent (agent_id a) (task_handlers a) (tasks a) (heap a) (background a) w.

(** [self.tasks[task_id]]: the object stored under an id. *)
Definition stored_task (a : Agent) (id : string) : option Task :=
  r ← tasks a !! id; heap a !! r.

(** [register_task_handler]: [self.task_handlers[task_type] = handler] *)
Definition register_task_handler (a : Agent) (task_type : string)
    (handler : Handler) : Agent :=
  with_handlers a (<[task_type := handler]> (task_handlers a)).

(** [_handle_incoming_task] (POST /tasks).  [task] is the object FastAPI
    built from the request body; [r] is its identity in the heap.
<<
    if task.target_agent_id != self.agent_id: raise HTTPException(400, ...)
    if task.type not in self.task_handlers:   raise HTTPException(400, ...)
    self.tasks[task.id] = task
    task.update_status(TaskStatus.IN_PROGRESS)
    background_tasks.add_task(self._process_task, task)
    return task
>> *)
Definition _handle_incoming_task (a : Agent) (task : Task) (now : Z)
    : HTTPException + (Agent * nat) :=
  if negb (String.eqb (target_agent_id task) (agent_id a)) then
    inl (mkHTTPException 400
           ("Task target " ++ target_agent_id task ++
            " does not match this agent (" ++ agent_id a ++ ")"))
  else
    match task_handlers a !! type task with
    | None =>
        inl (mkHTTPException 400 ("No handler for task type: " ++ type task))
    | Some _ =>
        let r := fresh (dom (heap a)) in
        let a0 := with_heap a (<[r := task]> (heap a)) in
        let a1 := with_tasks a0 (<[task_id task := r]> (tasks a0)) in
        let a2 := with_heap a1
                    (alter (fun t => update_status t IN_PROGRESS now) r
                           (heap a1)) in
        let a3 := with_background a2 (background a2 ++ [r]) in
        inr (a3, r)
    end.

(** [create_task] (POST /tasks): the endpoint around
    [_handle_incoming_task].  An [HTTPException] is the answer and leaves
    the agent as it was; else the answer is the task object returned. *)
Definition create_task (a : Agent) (task : Task) (now : Z)
    : Agent * (HTTPException + Task) :=
  match _handle_incoming_task a task now with
  | inl e => (a, inl e)
  | inr (a', r) =>
      match heap a' !! r with
      | Some t => (a', inr t)
      | None => (a', inr task)
      end
  end.

(** How [_process_task] ends. *)
Inductive Processed :=
  | Done (task : Task) (w : W)
  | NoHandler.

(** [_process_task], on the task object it was given.
<<
    handler = self.task_handlers[task.type]
    try:
        await handler(task)
        task.update_status(TaskStatus.COMPLETED)
    except Exception as e:
        task.update_status(TaskStatus.FAILED)
        if not task.metadata:
            task.metadata = {}
        task.metadata["error"] = str(e)
>>
    [NoHandler] is the [KeyError] of the first line, outside the [try]. *)
Definition _process_task (a : Agent) (task : Task) (now : Z) : Processed :=
  match task_handlers a !! type task with
  | None => NoHandler
  | Some handler =>
      match handler task (ext a) now with
      | (task1, w1, Returns) =>
          Done (update_status task1 COMPLETED now) w1
      | (task1, w1, Raises msg) =>
          Done (metadata_set (update_status task1 FAILED now)
                             "error" (JStr msg)) w1
      end
  end.

(** One background job: the oldest pending [_process_task(task)] call runs
    on its object. *)
Definition run_background (a : Agent) (now : Z) : Agent :=
  match background a with
  | [] => a
  | r :: rest =>
      let a0 := with_background a rest in
      match heap a0 !! r with
      | None => a0
      | Some task =>
          match _process_task a0 task now with
          | Done task' w' => with_ext (with_heap a0 (<[r := task']> (heap a0))) w'
          | NoHandler => a0
          end
      end
  end.

(** The declared fields of [Task]. *)
Definition is_field (key : string) : bool :=
  existsb (String.eqb key)
    ["id"; "type"; "status"; "created_at"; "updated_at"; "source_agent_id";
     "target_agent_id"; "data_parts"; "parent_task_id"; "metadata"].

(** [hasattr(task, key)] *)
Definition hasattr (key : string) : bool := is_field key || method_name key.

(** A name that starts with an underscore ([__dict__], [__class__],
    [_abc_impl], ...): pydantic treats it as no field name and hands the
    assignment to [object.__setattr__]. *)
Definition is_private_name (key : string) : bool :=
  match key with
  | String c _ => Ascii.eqb c "_"
  | EmptyString => false
  end.

(** What [setattr(task, key, value)] does with a JSON value. *)
Inductive Assigned :=
  | Assigned_ok (task : Task)
  | Assigned_raises
  | Assigned_untyped.

(** [setattr(task, key, value)].  pydantic does not validate on assignment,
    so the value is stored as it is; [Assigned_untyped] marks an assignment
    after which the object is no longer described by a [Task] record: a
    field holds a value its declared type does not have (a number as
    [status], a string as [created_at], ...), or the assignment went to a
    name that starts with an underscore, which [object.__setattr__]
    carries out on the object itself ([__dict__] replaces all fields at
    once) or refuses, depending on the name and the value.  Any other name
    that is no field raises. *)
Definition setattr (task : Task) (key : string) (value : json) : Assigned :=
  let t := task in
  if negb (is_field key) then
    if is_private_name key then Assigned_untyped else Assigned_raises
  else
    match key, value with
    | "id", JStr v =>
        Assigned_ok (mkTask v (type t) (status t) (created_at t) (updated_at t)
          (source_agent_id t) (target_agent_id t) (data_parts t)
          (parent_task_id t) (metadata t))
    | "type", JStr v =>
        Assigned_ok (mkTask (task_id t) v (status t) (created_at t) (updated_at t)
          (source_agent_id t) (target_agent_id t) (data_parts t)
          (parent_task_id t) (metadata t))
    | "source_agent_id", JStr v =>
        Assigned_ok (mkTask (task_id t) (type t) (status t) (created_at t)
          (updated_at t) v (target_agent_id t) (data_parts t)
          (parent_task_id t) (metadata t))
    | "target_agent_id", JStr v =>
        Assigned_ok (mkTask (task_id t) (type t) (status t) (created_at t)
          (updated_at t) (source_agent_id t) v (data_parts t)
          (parent_task_id t) (metadata t))
    | "parent_task_id", JStr v =>
        Assigned_ok (mkTask (task_id t) (type t) (status t) (created_at t)
          (updated_at t) (source_agent_id t) (target_agent_id t) (data_parts t)
          (Some v) (metadata t))
    | "parent_task_id", JNull =>
        Assigned_ok (mkTask (task_id t) (type t) (status t) (created_at t)
          (updated_at t) (source_agent_id t) (target_agent_id t) (data_parts t)
          None (metadata t))
    | "metadata", JDict d =>
        Assigned_ok (set_metadata t (Some (list_to_map d)))
    | "metadata", JNull => Assigned_ok (set_metadata t None)
    | "data_parts", JList [] =>
        Assigned_ok (mkTask (task_id t) (type t) (status t) (created_at t)
          (updated_at t) (source_agent_id t) (target_agent_id t) []
          (parent_task_id t) (metadata t))
    | _, _ => Assigned_untyped
    end.

(** How the loop of the PATCH endpoint ends. *)
Inductive Updated :=
  | Updated_ok (task : Task)
  | Updated_raises (task : Task)
  | Updated_untyped.

(** The loop of [update_task]:
<<
    for key, value in update_data.items():
        if hasattr(task, key):
            if key == "status" and isinstance(value, str):
                task.update_status(TaskStatus(value))
            else:
                setattr(task, key, value)
>>
    An exception leaves the loop with the assignments made so far in
    place. *)
Fixpoint update_fields (task : Task) (update_data : list (string * json))
    (now : Z) : Updated :=
  match update_data with
  | [] => Updated_ok task
  | (key, value) :: rest =>
      if hasattr key then
        match String.eqb key "status", value with
        | true, JStr v =>
            match TaskStatus_of_value v with
            | Some s => update_fields (update_status task s now) rest now
            | None => Updated_raises task
            end
        | _, _ =>
            match setattr task key value with
            | Assigned_ok task' => update_fields task' rest now
            | Assigned_raises => Updated_raises task
            | Assigned_untyped => Updated_untyped
            end
        end
      else update_fields task rest now
  end.

(** The answer of PATCH /tasks/{task_id}.  [Patch_untyped]: an assignment
    left the object outside what a [Task] record describes (see
    [setattr]); what is answered then is not modelled. *)
Inductive Patched :=
  | Patch_404 (e : HTTPException)
  | Patch_200 (a : Agent) (task : Task)
  | Patch_500 (a : Agent)
  | Patch_untyped.

(** [update_task] (PATCH /tasks/{task_id}) *)
Definition update_task (a : Agent) (id : string)
    (update_data : list (string * json)) (now : Z) : Patched :=
  match tasks a !! id with
  | None => Patch_404 (mkHTTPException 404 ("Task " ++ id ++ " not found"))
  | Some r =>
      match heap a !! r with
      | None => Patch_404 (mkHTTPException 404 ("Task " ++ id ++ " not found"))
      | Some task =>
          match update_fields task update_data now with
          | Updated_ok task1 =>
              let task2 := set_updated_at task1 now in
              Patch_200 (with_heap a (<[r := task2]> (heap a))) task2
          | Updated_raises task1 =>
              Patch_500 (with_heap a (<[r := task1]> (heap a)))
          | Updated_untyped => Patch_untyped
          end
      end
  end.

(** [get_task] (GET /tasks/{task_id}) *)
Definition get_task (a : Agent) (id : string) : HTTPException + Task :=
  match stored_task a id with
  | None => inl (mkHTTPException 404 ("Task " ++ id ++ " not found"))
  | Some task => inr task
  end.

End BaseAgent.

Arguments Agent : clear implicits.
Arguments Handler : clear implicits.
Arguments Processed : clear implicits.
Arguments Patched : clear implicits.

End Agent.

(* ===================================================================== *)
(** ** src/core/storage.py *)
(* ===================================================================== *)

Module Storage.
Import Models.

(** Modelled from the spec: the document store behind [self.collection]
    (a MongoDB collection; the driver is not part of the sources).  The
    specification asks of it a keyed upsert and a keyed get, with keys
    chosen by the caller: a collection is a finite map from [_id] to
    document, [replace_one({"_id": k}, doc, upsert=True)] binds [k] to
    [doc] whether or not [k] was bound, and [find_one({"_id": k})] reads
    it.  The store is taken to be reachable. *)
Definition replace_one_upsert {D : Type} (collection : gmap string D)
    (_id : string) (doc : D) : gmap string D :=
  <[_id := doc]> collection.

Definition find_one {D : Type} (collection : gmap string D) (_id : string)
    : option D :=
  collection !! _id.

(** The document [_task_to_dict] builds: the task's fields, and the task's
    id again as [_id]. *)
Record TaskDict := mkTaskDict {
  _id : string;
  fields : Task
}.

(** [TaskStorage._task_to_dict] *)
Definition _task_to_dict (task : Task) : TaskDict :=
  mkTaskDict (task_id task) task.

(** [TaskStorage._dict_to_task]: [task_dict["id"] = task_dict.pop("_id")] *)
Definition _dict_to_task (task_dict : TaskDict) : Task :=
  let t := fields task_dict in
  mkTask (_id task_dict) (type t) (status t) (created_at t) (updated_at t)
         (source_agent_id t) (target_agent_id t) (data_parts t)
         (parent_task_id t) (metadata t).

(** [TaskStorage.save_task]:
<<
    task_dict = self._task_to_dict(task)
    self.collection.replace_one({"_id": task.id}, task_dict, upsert=True)
    return True
>> *)
Definition save_task (collection : gmap string TaskDict) (task : Task)
    : gmap string TaskDict * bool :=
  let task_dict := _task_to_dict task in
  (replace_one_upsert collection (task_id task) task_dict, true).

(** [TaskStorage.get_task] *)
Definition get_task (collection : gmap string TaskDict) (id : string)
    : option Task :=
  _dict_to_task <$> find_one collection id.

(** The driver's [update_one({"_id": k}, {"$set": {"status": ...,
    "updated_at": ...}})], without [upsert]: the document bound to [k], if
    there is one, gets the two fields; no document is created.  The second
    component is [modified_count], the number of documents the update
    changed. *)
Definition update_one_set_status (collection : gmap string TaskDict)
    (_id : string) (status : TaskStatus) (updated_at : Z)
    : gmap string TaskDict * nat :=
  match collection !! _id with
  | None => (collection, 0)
  | Some task_dict =>
      let t := fields task_dict in
      let t' := set_updated_at (set_status t status) updated_at in
      let changed :=
        negb (bool_decide (Models.status t = status)
              && Z.eqb (Models.updated_at t) updated_at) in
      (<[_id := mkTaskDict (Storage._id task_dict) t']> collection,
       if changed then 1 else 0)
  end.

(** [TaskStorage.update_task_status]:
<<
    result = self.collection.update_one({"_id": task_id},
        {"$set": {"status": status.value,
                  "updated_at": datetime.now().isoformat()}})
    return result.modified_count > 0
>> *)
Definition update_task_status (collection : gmap string TaskDict)
    (task_id : string) (status : TaskStatus) (now : Z)
    : gmap string TaskDict * bool :=
  let '(collection', modified_count) :=
    update_one_set_status collection task_id status now in
  (collection', Nat.ltb 0 modified_count).

End Storage.

(* ===================================================================== *)
(** ** src/agents/content_scheduler/models.py *)
(* ===================================================================== *)

Module ContentModels.
Import Models.

(** A Python [str] seen as its characters. *)
Abbreviation str := (list ascii).

Inductive ContentType := TEXT | IMAGE | VIDEO | LINK | MIXED.

Inductive PostStatus :=
  | DRAFT | SCHEDULED | PUBLISHED | POST_FAILED | POST_CANCELED.

#[global] Instance PostStatus_eq_dec : EqDecision PostStatus.
Proof. solve_decision. Defined.

Inductive SocialPlatform := FACEBOOK | TWITTER | INSTAGRAM | LINKEDIN.

#[global] Instance SocialPlatform_eq_dec : EqDecision SocialPlatform.
Proof. solve_decision. Defined.

Definition SocialPlatform_value (p : SocialPlatform) : string :=
  match p with
  | FACEBOOK => "facebook"
  | TWITTER => "twitter"
  | INSTAGRAM => "instagram"
  | LINKEDIN => "linkedin"
  end.

(** [SocialPlatform(value)]; [None] is the [ValueError]. *)
Definition SocialPlatform_of_value (v : string) : option SocialPlatform :=
  if String.eqb v "facebook" then Some FACEBOOK
  else if String.eqb v "twitter" then Some TWITTER
  else if String.eqb v "instagram" then Some INSTAGRAM
  else if String.eqb v "linkedin" then Some LINKEDIN
  else None.

(** [class PlatformSpecificContent(BaseModel)] *)
Record PlatformSpecificContent := mkPlatformSpecificContent {
  psc_platform : SocialPlatform;
  text : str;
  psc_image_reference : option string;
  link : option string;
  hashtags : list str;
  psc_metadata : list (string * json)
}.

(** [class ContentAdaptationRules(BaseModel)] *)
Record ContentAdaptationRules := mkContentAdaptationRules {
  platform : SocialPlatform;
  max_text_length : Z;
  hashtag_format : str;
  image_requirements : option (list (string * json))
}.

(** [class ScheduledPost(BaseModel)].  [credentials] and the values of
    [platform_post_ids] are kept as the JSON values assigned to them:
    pydantic checks them when a post is built from a stored document, not
    when a field is assigned. *)
Record ScheduledPost := mkScheduledPost {
  post_id : string;
  user_id : string;
  raw_text : string;
  post_content_type : ContentType;
  image_reference : option string;
  target_platforms : list SocialPlatform;
  schedule_time : Z;
  post_status : PostStatus;
  platform_specific_content : gmap string PlatformSpecificContent;
  platform_post_ids : gmap string json;
  credentials : json;
  post_created_at : Z;
  post_updated_at : Z
}.

Definition set_post_id (p : ScheduledPost) (id : string) : ScheduledPost :=
  mkScheduledPost id (user_id p) (raw_text p) (post_content_type p)
    (image_reference p) (target_platforms p) (schedule_time p) (post_status p)
    (platform_specific_content p) (platform_post_ids p) (credentials p)
    (post_created_at p) (post_updated_at p).

Definition set_post_status (p : ScheduledPost) (s : PostStatus) : ScheduledPost :=
  mkScheduledPost (post_id p) (user_id p) (raw_text p) (post_content_type p)
    (image_reference p) (target_platforms p) (schedule_time p) s
    (platform_specific_content p) (platform_post_ids p) (credentials p)
    (post_created_at p) (post_updated_at p).

Definition set_post_updated_at (p : ScheduledPost) (now : Z) : ScheduledPost :=
  mkScheduledPost (post_id p) (user_id p) (raw_text p) (post_content_type p)
    (image_reference p) (target_platforms p) (schedule_time p) (post_status p)
    (platform_specific_content p) (platform_post_ids p) (credentials p)
    (post_created_at p) now.

Definition set_platform_specific_content (p : ScheduledPost)
    (m : gmap string PlatformSpecificContent) : ScheduledPost :=
  mkScheduledPost (post_id p) (user_id p) (raw_text p) (post_content_type p)
    (image_reference p) (target_platforms p) (schedule_time p) (post_status p)
    m (platform_post_ids p) (credentials p)
    (post_created_at p) (post_updated_at p).

Definition set_platform_post_ids (p : ScheduledPost) (m : gmap string json)
    : ScheduledPost :=
  mkScheduledPost (post_id p) (user_id p) (raw_text p) (post_content_type p)
    (image_reference p) (target_platforms p) (schedule_time p) (post_status p)
    (platform_specific_content p) m (credentials p)
    (post_created_at p) (post_updated_at p).

Definition set_credentials (p : ScheduledPost) (c : json)
    : ScheduledPost :=
  mkScheduledPost (post_id p) (user_id p) (raw_text p) (post_content_type p)
    (image_reference p) (target_platforms p) (schedule_time p) (post_status p)
    (platform_specific_content p) (platform_post_ids p) c
    (post_created_at p) (post_updated_at p).

End ContentModels.

(* ===================================================================== *)
(** ** src/agents/content_scheduler/adapters.py *)
(* ===================================================================== *)

Module Adapters.
Import Models ContentModels.

#[local] Open Scope char_scope.
#[local] Open Scope Z_scope.

(** [len(s)] *)
Definition len (s : str) : Z := Z.of_nat (length s).

(** The class [\w] of [re], on ASCII text: letters, digits, underscore. *)
Definition is_word_char (c : ascii) : bool :=
  let n := nat_of_ascii c in
  ((48 <=? n) && (n <=? 57) || (65 <=? n) && (n <=? 90) ||
   (97 <=? n) && (n <=? 122) || (n =? 95))%nat.

(** What [str.strip()] removes, on ASCII text: the characters for which
    [str.isspace] holds. *)
Definition is_space (c : ascii) : bool :=
  let n := nat_of_ascii c in
  ((9 <=? n) && (n <=? 13) || (28 <=? n) && (n <=? 32))%nat.

(** The longest match of [\w*] at the head of [s]. *)
Fixpoint word_run (s : str) : str :=
  match s with
  | c :: rest => if is_word_char c then c :: word_run rest else []
  | [] => []
  end.

(** [re.findall(r'#(\w+)', text)]: the matches from left to right, each
    one starting where the one before ended.  [skip] counts the
    characters of the current match still to pass. *)
Fixpoint findall_hashtags (skip : nat) (s : str) : list str :=
  match s with
  | [] => []
  | c :: rest =>
      match skip with
      | S k => findall_hashtags k rest
      | O =>
          if Ascii.eqb c "#" then
            match word_run rest with
            | [] => findall_hashtags O rest
            | run => run :: findall_hashtags (length run) rest
            end
          else findall_hashtags O rest
      end
  end.

(** [re.sub(r'#\w+', '', text)]: the same matches, removed. *)
Fixpoint sub_hashtags (skip : nat) (s : str) : str :=
  match s with
  | [] => []
  | c :: rest =>
      match skip with
      | S k => sub_hashtags k rest
      | O =>
          if Ascii.eqb c "#" then
            match word_run rest with
            | [] => c :: sub_hashtags O rest
            | run => sub_hashtags (length run) rest
            end
          else c :: sub_hashtags O rest
      end
  end.

(** [extract_hashtags] *)
Definition extract_hashtags (text : str) : list str :=
  findall_hashtags O text.

(** [s.lstrip()] *)
Fixpoint lstrip (s : str) : str :=
  match s with
  | c :: rest => if is_space c then lstrip rest else s
  | [] => []
  end.

(** [s.strip()] *)
Definition strip (s : str) : str := rev (lstrip (rev (lstrip s))).

(** [fmt.format(arg)] with one positional argument, for format strings made
    of literal text, the escapes [{{] and [}}], and the fields [{}] and
    [{0}].  [auto] and [manual] record which kind of field was seen.
    [None]: Python raises (a second [{}], both kinds mixed, a lone brace),
    or the field has a name, conversion or format specification, which
    this model does not cover. *)
Fixpoint format_from (fmt : str) (auto manual : bool) (arg : str)
    : option str :=
  match fmt with
  | [] => Some []
  | "{" :: "{" :: rest => cons "{" <$> format_from rest auto manual arg
  | "}" :: "}" :: rest => cons "}" <$> format_from rest auto manual arg
  | "{" :: "}" :: rest =>
      if auto || manual then None
      else app arg <$> format_from rest true manual arg
  | "{" :: "0" :: "}" :: rest =>
      if auto then None
      else app arg <$> format_from rest auto true arg
  | "{" :: _ => None
  | "}" :: _ => None
  | c :: rest => cons c <$> format_from rest auto manual arg
  end.

Definition format (fmt : str) (arg : str) : option str :=
  format_from fmt false false arg.

(** [format_hashtags]:
    [[hashtag_format.format(tag) for tag in hashtags]] *)
Fixpoint format_hashtags (hashtags : list str) (hashtag_format : str)
    : option (list str) :=
  match hashtags with
  | [] => Some []
  | tag :: rest =>
      match format hashtag_format tag with
      | None => None
      | Some f => cons f <$> format_hashtags rest hashtag_format
      end
  end.

(** [text[:n]], for any integer [n]: a negative [n] counts from the end. *)
Definition slice_to (s : str) (n : Z) : str :=
  if 0 <=? n then take (Z.to_nat n) s
  else take (length s - Z.to_nat (- n)) s.

(** [s.rfind(c)]: the index of the last [c], or -1. *)
Fixpoint rfind (s : str) (c : ascii) : Z :=
  match s with
  | [] => -1
  | x :: rest =>
      let i := rfind rest c in
      if 0 <=? i then i + 1
      else if Ascii.eqb x c then 0 else -1
  end.

(** [truncate_text]:
<<
    if len(text) <= max_length:
        return text
    truncated = text[:max_length]
    last_space = truncated.rfind(' ')
    if last_space > 0:
        truncated = truncated[:last_space]
    if len(truncated) < len(text):
        truncated += "..."
    return truncated
>> *)
Definition truncate_text (text : str) (max_length : Z) : str :=
  if len text <=? max_length then text
  else
    let truncated := slice_to text max_length in
    let last_space := rfind truncated " " in
    let truncated :=
      if 0 <? last_space then slice_to truncated last_space else truncated in
    if len truncated <? len text
    then truncated ++ list_ascii_of_string "..."
    else truncated.

(** [" ".join(parts)] *)
Fixpoint join_space (parts : list str) : str :=
  match parts with
  | [] => []
  | [p] => p
  | p :: rest => p ++ " " :: join_space rest
  end.

(** [int(max_text_length / 2)]: the quotient rounded towards zero (the
    float division is exact far beyond any text length). *)
Definition half (max_text_length : Z) : Z := Z.quot max_text_length 2.

(** The budget left for the body when hashtags are present:
<<
    max_content_length = max_text_length - len(hashtag_text) - 1
    if max_content_length < 0:
        max_content_length = int(max_text_length / 2)
>> *)
Definition content_budget (max_text_length : Z) (hashtag_text : str) : Z :=
  let max_content_length := max_text_length - len hashtag_text - 1 in
  if max_content_length <? 0 then half max_text_length
  else max_content_length.

(** The text part of [adapt_content_for_platform]: from the cleaned body
    and the formatted hashtags to the adapted text. *)
Definition adapt_text (hashtags : list str) (formatted_hashtags : list str)
    (clean_text : str) (max_text_length : Z) : str :=
  match hashtags with
  | _ :: _ =>
      let hashtag_text := join_space formatted_hashtags in
      let max_content_length := content_budget max_text_length hashtag_text in
      let truncated_text := truncate_text clean_text max_content_length in
      match truncated_text, hashtag_text with
      | _ :: _, _ :: _ => truncated_text ++ " " :: hashtag_text
      | _ :: _, [] => truncated_text
      | [], _ => hashtag_text
      end
  | [] => truncate_text clean_text max_text_length
  end.

(** [image_requirements.get("max_images", 0) > 0]; [None] is the
    [TypeError] of comparing a value that is no number with 0. *)
Definition max_images_positive (image_requirements : list (string * json))
    : option bool :=
  match dict_get_default image_requirements "max_images" (JNum 0) with
  | JNum n => Some (0 <? n)
  | JBool b => Some b
  | _ => None
  end.

(** [bool(image_reference)] for an [Optional[str]] *)
Definition has_image (image_reference : option string) : bool :=
  match image_reference with
  | Some s => negb (String.eqb s "")
  | None => false
  end.

(** The metadata part of [adapt_content_for_platform]. *)
Definition adapt_metadata (image_reference : option string)
    (platform : SocialPlatform) (rules : ContentAdaptationRules)
    : option (list (string * json)) :=
  let image_requirements := default [] (image_requirements rules) in
  let platform_metadata :=
    if bool_decide (platform = INSTAGRAM)
       && truthy (dict_get_default image_requirements "required" (JBool false))
       && negb (has_image image_reference)
    then [("warning"%string, JStr "Instagram requires an image for posts")]
    else [] in
  if bool_decide (platform = TWITTER) && has_image image_reference then
    match max_images_positive image_requirements with
    | None => None
    | Some true => Some (platform_metadata ++ [("images_count"%string, JNum 1)])%list
    | Some false => Some platform_metadata
    end
  else Some platform_metadata.

(** [adapt_content_for_platform].  [None]: an exception leaves the
    function (from [str.format] or from the comparison of [max_images]). *)
Definition adapt_content_for_platform (raw_text : str)
    (image_reference : option string) (platform : SocialPlatform)
    (rules : ContentAdaptationRules) : option PlatformSpecificContent :=
  let hashtags := extract_hashtags raw_text in
  match format_hashtags hashtags (hashtag_format rules) with
  | None => None
  | Some formatted_hashtags =>
      let clean_text := strip (sub_hashtags O raw_text) in
      let adapted_text :=
        adapt_text hashtags formatted_hashtags clean_text
                   (max_text_length rules) in
      match adapt_metadata image_reference platform rules with
      | None => None
      | Some platform_metadata =>
          Some (mkPlatformSpecificContent platform adapted_text
                  image_reference None hashtags platform_metadata)
      end
  end.

End Adapters.

(* ===================================================================== *)
(** ** src/core/utils.py *)
(* ===================================================================== *)

Module Utils.
Import Models.

(** [extract_data_part_by_content_type]: the first data part of that
    content type. *)
Fixpoint extract_data_part_by_content_type (task_data_parts : list DataPart)
    (content_type : string) : option DataPart :=
  match task_data_parts with
  | [] => None
  | data_part :: rest =>
      if String.eqb (Models.content_type data_part) content_type
      then Some data_part
      else extract_data_part_by_content_type rest content_type
  end.

End Utils.

(* ===================================================================== *)
(** ** src/agents/content_scheduler/storage.py and agent.py *)
(* ===================================================================== *)

Module Scheduler.
Import Models ContentModels Adapters Agent Utils.

(** What the agent does to the outside, in the order it does it. *)
Inductive Event :=
  | Post_saved (post : string) (status : PostStatus)
  | Task_sent (target_agent_id task_type post : string)
  | Publish_called (post : string)
  | Queue_removed (post : string).

#[global] Instance Event_eq_dec : EqDecision Event.
Proof. solve_decision. Defined.

(** A job of the scheduler: the ['date'] trigger's [run_date] and the
    [args] the callback [publish_post_wrapper] is called with. *)
Record Job := mkJob {
  run_date : Z;
  args : list string
}.

(** How a call of [send_task] ends: the target agent answered 201, or the
    client returned [None], or an exception came out of the call. *)
Inductive Dispatch := Dispatched | Not_dispatched | Dispatch_raised.

(** [class ContentSchedulerAgent]: what it adds to [BaseAgent], and the
    surroundings it acts on.
    - [post_storage], [task_storage]: the collections ["posts"], ["tasks"];
    - [scheduler]: the job store of [self.scheduler];
    - [_publish_queue]: the attribute of that name, [None] until it is
      created;
    - [uuids], [uuid_count]: the values [generate_id()] yields, and how
      many the agent has drawn;
    - [decode_ok]: whether [decode_image] manages to decode and write;
    - [network]: how a dispatch to a target agent ends;
    - [trace]: the events so far, oldest first. *)
Record World := mkWorld {
  post_storage : gmap string ScheduledPost;
  task_storage : gmap string Storage.TaskDict;
  scheduler : gmap string Job;
  _publish_queue : option (list string);
  media_storage_path : string;
  uuids : nat -> string;
  uuid_count : nat;
  decode_ok : string -> bool;
  network : string -> Dispatch;
  trace : list Event
}.

Definition with_post_storage (w : World) (c : gmap string ScheduledPost) :=
  mkWorld c (task_storage w) (scheduler w) (_publish_queue w)
    (media_storage_path w) (uuids w) (uuid_count w) (decode_ok w)
    (network w) (trace w).

Definition with_task_storage (w : World) (c : gmap string Storage.TaskDict) :=
  mkWorld (post_storage w) c (scheduler w) (_publish_queue w)
    (media_storage_path w) (uuids w) (uuid_count w) (decode_ok w)
    (network w) (trace w).

Definition with_scheduler (w : World) (j : gmap string Job) :=
  mkWorld (post_storage w) (task_storage w) j (_publish_queue w)
    (media_storage_path w) (uuids w) (uuid_count w) (decode_ok w)
    (network w) (trace w).

Definition with_publish_queue (w : World) (q : option (list string)) :=
  mkWorld (post_storage w) (task_storage w) (scheduler w) q
    (media_storage_path w) (uuids w) (uuid_count w) (decode_ok w)
    (network w) (trace w).

Definition with_uuid_count (w : World) (n : nat) :=
  mkWorld (post_storage w) (task_storage w) (scheduler w) (_publish_queue w)
    (media_storage_path w) (uuids w) n (decode_ok w)
    (network w) (trace w).

Definition record (w : World) (e : Event) :=
  mkWorld (post_storage w) (task_storage w) (scheduler w) (_publish_queue w)
    (media_storage_path w) (uuids w) (uuid_count w) (decode_ok w)
    (network w) (trace w ++ [e]).

(** *** PostStorage *)

(** Whether pydantic accepts [credentials] as a
    [Dict[str, Dict[str, Any]]]. *)
Definition valid_credentials (c : json) : bool :=
  match c with
  | JDict d =>
      forallb (fun kv => match snd kv with JDict _ => true | _ => false end) d
  | _ => false
  end.

Definition is_JStr (v : json) : bool :=
  match v with JStr _ => true | _ => false end.

(** [v == s] for a JSON value and a string literal. *)
Definition eq_str (v : json) (s : string) : bool :=
  match v with JStr x => String.eqb x s | _ => false end.

(** [PostStorage._dict_to_post]: the document's [_id] becomes the post's
    id, and building the [ScheduledPost] from the document validates it;
    [None] is the [ValidationError]. *)
Definition _dict_to_post (_id : string) (post_dict : ScheduledPost)
    : option ScheduledPost :=
  if valid_credentials (credentials post_dict)
     && forallb (fun kv => is_JStr (snd kv))
                (map_to_list (platform_post_ids post_dict))
  then Some (set_post_id post_dict _id) else None.

(** [PostStorage.save_post]: a keyed upsert of the post's document, logged
    in the trace. *)
Definition save_post (w : World) (post : ScheduledPost) : World * bool :=
  let w1 := with_post_storage w
              (Storage.replace_one_upsert (post_storage w) (post_id post) post) in
  (record w1 (Post_saved (post_id post) (post_status post)), true).

(** [PostStorage.get_post]: [None] when no document has that id, and when
    the document does not validate (the exception is caught). *)
Definition get_post (w : World) (id : string) : option ScheduledPost :=
  match Storage.find_one (post_storage w) id with
  | None => None
  | Some post_dict => _dict_to_post id post_dict
  end.

(** Modelled from the spec: the keyed delete of the document store,
    [delete_one({"_id": k})]: the document bound to [k] goes; the second
    component is [deleted_count]. *)
Definition delete_one {D : Type} (collection : gmap string D) (_id : string)
    : gmap string D * nat :=
  match collection !! _id with
  | None => (collection, 0)
  | Some _ => (delete _id collection, 1)
  end.

(** [PostStorage.delete_post]:
<<
    result = self.collection.delete_one({"_id": post_id})
    return result.deleted_count > 0
>> *)
Definition delete_post (w : World) (post_id : string) : World * bool :=
  let '(collection, deleted_count) := delete_one (post_storage w) post_id in
  (with_post_storage w collection, Nat.ltb 0 deleted_count).

(** *** Scheduling *)

(** Modelled from the spec: [self.scheduler.add_job(..., id=job_id,
    replace_existing=True)] of the scheduler library, which is not part of
    the sources.  The specification: registering the same [job_id] again
    replaces the prior due time and argument rather than creating a
    duplicate firing; so the job store is a finite map from job id to job
    and registration binds the id. *)
Definition add_job_replace_existing (jobs : gmap string Job) (id : string)
    (run_date : Z) (args : list string) : gmap string Job :=
  <[id := mkJob run_date args]> jobs.

(** [_schedule_post_publication]:
<<
    job_id = f"publish_post_{post.id}"
    self.scheduler.add_job(publish_post_wrapper, 'date',
        run_date=post.schedule_time, args=[post.id],
        id=job_id, replace_existing=True)
>> *)
Definition _schedule_post_publication (w : World) (post : ScheduledPost)
    : World :=
  let job_id := "publish_post_" ++ post_id post in
  with_scheduler w
    (add_job_replace_existing (scheduler w) job_id
       (schedule_time post) [post_id post]).

(** [publish_post_wrapper], the callback of a job:
<<
    if not hasattr(self, '_publish_queue'):
        self._publish_queue = []
    self._publish_queue.append(post_id)
>> *)
Definition publish_post_wrapper (w : World) (post_id : string) : World :=
  let w1 := match _publish_queue w with
            | None => with_publish_queue w (Some [])
            | Some _ => w
            end in
  with_publish_queue w1 (Some (default [] (_publish_queue w1) ++ [post_id])%list).

(** Modelled from the spec: one firing of the scheduler (the library's
    timer thread, not part of the sources) for the job [job_id]: the job's
    callback runs once with the job's arguments and the job, having a
    one-shot ['date'] trigger, leaves the job store. *)
Definition fire (w : World) (job_id : string) : World :=
  match scheduler w !! job_id with
  | None => w
  | Some job =>
      let w1 := with_scheduler w (delete job_id (scheduler w)) in
      match args job with
      | [post_id] => publish_post_wrapper w1 post_id
      | _ => w1
      end
  end.

(** [ContentSchedulerAgent.start] *)
Definition start (w : World) : World :=
  match _publish_queue w with
  | None => with_publish_queue w (Some [])
  | Some _ => w
  end.

(** *** Publication *)

(** [platform.lower()] on a platform's value, then
    [f"{platform.lower()}-posting-agent"]. *)
Definition target_agent_of (p : SocialPlatform) : string :=
  SocialPlatform_value p ++ "-posting-agent".

(** One round of the loop of [_publish_post], for one platform: nothing
    when the post has no content for it, else a [send_task] whose failure
    is logged and swallowed. *)
Definition publish_to_platform (post : ScheduledPost) (w : World)
    (p : SocialPlatform) : World :=
  match platform_specific_content post !! SocialPlatform_value p with
  | None => w
  | Some platform_content =>
      let target_agent_id := target_agent_of p in
      let w1 := with_uuid_count w (S (uuid_count w)) in
      let w2 := record w1 (Task_sent target_agent_id "publish_post" (post_id post)) in
      match network w2 target_agent_id with
      | Dispatched => w2
      | Not_dispatched => w2
      | Dispatch_raised => w2
      end
  end.

(** [_publish_post]:
<<
    post = self.post_storage.get_post(post_id)
    if not post:
        return
    post.status = PostStatus.PUBLISHED
    post.updated_at = datetime.now()
    self.post_storage.save_post(post)
    for platform in post.target_platforms:
        ... await self.send_task(...) ...
>> *)
Definition _publish_post (w : World) (id : string) (now : Z) : World :=
  match get_post w id with
  | None => w
  | Some post =>
      let post := set_post_status post PUBLISHED in
      let post := set_post_updated_at post now in
      let w1 := fst (save_post w post) in
      fold_left (publish_to_platform post) (target_platforms post) w1
  end.

(** [self._publish_queue.remove(post_id)]: the first occurrence goes;
    [None] is the [ValueError] when there is none. *)
Fixpoint list_remove (x : string) (l : list string) : option (list string) :=
  match l with
  | [] => None
  | y :: rest =>
      if String.eqb y x then Some rest
      else cons y <$> list_remove x rest
  end.

(** One round of the drain loop, for one entry of the snapshot:
<<
    try:
        await self._publish_post(post_id)
        self._publish_queue.remove(post_id)
    except Exception as e:
        self.logger.error(...)
>> *)
Definition drain_entry (now : Z) (w : World) (post_id : string) : World :=
  let w1 := _publish_post (record w (Publish_called post_id)) post_id now in
  match list_remove post_id (default [] (_publish_queue w1)) with
  | Some q => record (with_publish_queue w1 (Some q)) (Queue_removed post_id)
  | None => w1
  end.

(** One pass of the drain loop, the body shared by [process_publish_queue]
    (at startup) and by each round of [check_queue_periodically]:
<<
    if hasattr(self, '_publish_queue') and self._publish_queue:
        for post_id in list(self._publish_queue):
            ...
>> *)
Definition drain_pass (w : World) (now : Z) : World :=
  match _publish_queue w with
  | None => w
  | Some [] => w
  | Some snapshot => fold_left (drain_entry now) snapshot w
  end.

(** [process_publish_queue], the startup hook: one pass; the periodic
    task is created when it is over. *)
Definition process_publish_queue (w : World) (now : Z) : World :=
  drain_pass w now.

(** [check_queue_periodically]: a pass at each of the given wake-up times,
    one after the other. *)
Definition check_queue_periodically (w : World) (wakeups : list Z) : World :=
  fold_left drain_pass wakeups w.

(** *** Task handlers *)

(** Exceptions raised by Python itself or by a library, not by a [raise]
    of the sources. *)
Inductive LibraryError :=
  | Not_iterable (v : json)
  | No_attribute (v : json) (attribute : string)
  | Unhashable (v : json)
  | Validation_error (user_id raw_text : json)
  | Adaptation_error (p : SocialPlatform).

(** What the handlers use of the Python library and of pydantic:
    [datetime.fromisoformat] ([None]: its [ValueError]),
    [datetime.isoformat], [os.path.join], and [str(e)] for the exceptions
    above. *)
Record Library := mkLibrary {
  fromisoformat : string -> option Z;
  isoformat : Z -> string;
  path_join : string -> string -> string;
  error_text : LibraryError -> string
}.

(** The body of a [try] block: a computation on the world that ends with
    a value or with an exception ([str(e)]). *)
Inductive Result (A : Type) :=
  | Ok (a : A) (w : World)
  | Exc (msg : string) (w : World).
Arguments Ok {A} a w.
Arguments Exc {A} msg w.

Definition M (A : Type) : Type := World -> Result A.

Definition ret {A} (a : A) : M A := fun w => Ok a w.
Definition raise {A} (msg : string) : M A := fun w => Exc msg w.
Definition bind {A B} (c : M A) (k : A -> M B) : M B :=
  fun w => match c w with
           | Ok a w1 => k a w1
           | Exc msg w1 => Exc msg w1
           end.
Definition act (f : World -> World) : M unit := fun w => Ok tt (f w).

Notation "'do' x <- c ;; k" := (bind c (fun x => k))
  (at level 10, x name, c at level 99, k at level 200).
Notation "'run' c ;; k" := (bind c (fun _ => k))
  (at level 10, c at level 99, k at level 200).

(** [generate_id()] *)
Definition generate_id : M string :=
  fun w => Ok (uuids w (uuid_count w)) (with_uuid_count w (S (uuid_count w))).

(** [s.replace(old, new)] for a one-character [old]. *)
Fixpoint replace_char (s : string) (old : ascii) (new : string) : string :=
  match s with
  | EmptyString => EmptyString
  | String c rest =>
      if Ascii.eqb c old then new ++ replace_char rest old new
      else String c (replace_char rest old new)
  end.

(** [s.lower()] on ASCII text. *)
Definition lower_char (c : ascii) : ascii :=
  let n := nat_of_ascii c in
  if ((65 <=? n) && (n <=? 90))%nat then ascii_of_nat (n + 32) else c.

Fixpoint lower (s : string) : string :=
  match s with
  | EmptyString => EmptyString
  | String c rest => String (lower_char c) (lower rest)
  end.

(** What [for x in v] iterates over; [None]: [v] is not iterable. *)
Fixpoint chars_of (s : string) : list json :=
  match s with
  | EmptyString => []
  | String c rest => JStr (String c EmptyString) :: chars_of rest
  end.

Definition iterate (v : json) : option (list json) :=
  match v with
  | JList l => Some l
  | JStr s => Some (chars_of s)
  | JDict d => Some (map (fun kv => JStr (fst kv)) d)
  | JNull | JBool _ | JNum _ => None
  end.

(** The fields of a validated request. *)
Record Validated := mkValidated {
  v_user_id : json;
  v_raw_text : json;
  v_image_data : json;
  v_platform_list : list SocialPlatform;
  v_schedule_time : Z;
  v_credentials : json
}.

Section Handlers.

Variable lib : Library.

(** The loop that parses the target platforms:
<<
    for platform_str in target_platforms:
        try:
            platform = SocialPlatform(platform_str.lower())
            platform_list.append(platform)
        except ValueError:
            self.logger.warning(...)
>>
    [inl]: the exception of [.lower()] on a value that is no string. *)
Fixpoint parse_platforms (items : list json)
    : string + list SocialPlatform :=
  match items with
  | [] => inr []
  | JStr platform_str :: rest =>
      match parse_platforms rest with
      | inl e => inl e
      | inr platform_list =>
          match SocialPlatform_of_value (lower platform_str) with
          | Some platform => inr (platform :: platform_list)
          | None => inr platform_list
          end
      end
  | v :: _ => inl (error_text lib (No_attribute v "lower"))
  end.

(** The first part of the [try] block of [_handle_process_schedule_post],
    up to the parsed schedule time: the data part is found, the required
    fields are there, a platform is valid, the time parses.  [inl] is
    [str(e)] of the exception that ends it. *)
Definition validate (task : Task) : string + Validated :=
  match extract_data_part_by_content_type (data_parts task) "application/json" with
  | None => inl "No content data found in task"
  | Some data_part =>
      let data := Models.data data_part in
      let user_id := dict_get data "user_id" in
      let raw_text := dict_get data "raw_text" in
      let image_data := dict_get data "image_data" in
      let target_platforms := dict_get_default data "target_platforms" (JList []) in
      let schedule_time_str := dict_get data "schedule_time" in
      let credentials := dict_get_default data "social_media_credentials" (JDict []) in
      if negb (truthy user_id) then inl "user_id is required"
      else if negb (truthy raw_text) then inl "raw_text is required"
      else if negb (truthy target_platforms) then inl "target_platforms is required"
      else if negb (truthy schedule_time_str) then inl "schedule_time is required"
      else
        match iterate target_platforms with
        | None => inl (error_text lib (Not_iterable target_platforms))
        | Some items =>
            match parse_platforms items with
            | inl e => inl e
            | inr [] => inl "No valid target platforms specified"
            | inr platform_list =>
                match schedule_time_str with
                | JStr s =>
                    match fromisoformat lib (replace_char s "Z" "+00:00") with
                    | None => inl ("Invalid schedule time format: " ++ s)
                    | Some schedule_time =>
                        inr (mkValidated user_id raw_text image_data
                               platform_list schedule_time credentials)
                    end
                | v => inl (error_text lib (No_attribute v "replace"))
                end
            end
        end
  end.

(** [self.adaptation_rules] *)
Definition adaptation_rules (p : SocialPlatform) : ContentAdaptationRules :=
  let fmt := list_ascii_of_string "#{}" in
  match p with
  | TWITTER =>
      mkContentAdaptationRules TWITTER 280 fmt (Some [("max_images", JNum 4)])
  | FACEBOOK => mkContentAdaptationRules FACEBOOK 5000 fmt (Some [])
  | INSTAGRAM =>
      mkContentAdaptationRules INSTAGRAM 2200 fmt (Some [("required", JBool true)])
  | LINKEDIN => mkContentAdaptationRules LINKEDIN 3000 fmt (Some [])
  end.

(** The image part:
<<
    content_type = ContentType.TEXT
    image_reference = None
    if image_data:
        content_type = ContentType.IMAGE
        image_path = os.path.join(self.media_storage_path, f"{post_id}.jpg")
        if decode_image(image_data, image_path):
            image_reference = image_path
>> *)
Definition store_image (w : World) (image_data : json) (post_id : string)
    : ContentType * option string :=
  if truthy image_data then
    let image_path := path_join lib (media_storage_path w) (post_id ++ ".jpg") in
    match image_data with
    | JStr b64 => if decode_ok w b64 then (IMAGE, Some image_path)
                  else (IMAGE, None)
    | _ => (IMAGE, None)
    end
  else (TEXT, None).

(** The loop that adapts the content for each platform. *)
Fixpoint adapt_all (raw_text : string) (image_reference : option string)
    (platform_list : list SocialPlatform) (post : ScheduledPost)
    : M ScheduledPost :=
  match platform_list with
  | [] => ret post
  | p :: rest =>
      match adapt_content_for_platform (list_ascii_of_string raw_text)
              image_reference p (adaptation_rules p) with
      | None => raise (error_text lib (Adaptation_error p))
      | Some adapted_content =>
          adapt_all raw_text image_reference rest
            (set_platform_specific_content post
               (<[SocialPlatform_value p := adapted_content]>
                  (platform_specific_content post)))
      end
  end.

(** The second part of the [try] block: the post is built, adapted, saved
    and scheduled, and the task is saved and annotated. *)
Definition schedule_validated (task : Task) (v : Validated) (now : Z)
    : M Task :=
  do post_id <- generate_id ;;
  fun w =>
  let '(content_type, image_reference) := store_image w (v_image_data v) post_id in
  match v_user_id v, v_raw_text v with
  | JStr user_id, JStr raw_text =>
      let post :=
        mkScheduledPost post_id user_id raw_text content_type image_reference
          (v_platform_list v) (v_schedule_time v) SCHEDULED ∅ ∅ (JDict [])
          now now in
      let post := if truthy (v_credentials v)
                  then set_credentials post (v_credentials v) else post in
      (do post <- adapt_all raw_text image_reference (v_platform_list v) post ;;
       do saved <- (fun w => let '(w1, b) := save_post w post in Ok b w1) ;;
       if negb saved then raise ("Failed to save post " ++ post_id)
       else
         run act (fun w => _schedule_post_publication w post) ;;
         run act (fun w => with_task_storage w
                             (fst (Storage.save_task (task_storage w) task))) ;;
         ret (metadata_set (metadata_set task "post_id" (JStr post_id))
                "schedule_time" (JStr (isoformat lib (v_schedule_time v))))) w
  | user_id, raw_text =>
      Exc (error_text lib (Validation_error user_id raw_text)) w
  end.

(** The [except] block the two handlers share:
<<
    if not task.metadata:
        task.metadata = {}
    task.metadata["error"] = str(e)
    task.update_status(TaskStatus.FAILED)
>> *)
Definition fail_task (task : Task) (msg : string) (now : Z) : Task :=
  update_status (metadata_set task "error" (JStr msg)) FAILED now.

(** [_handle_process_schedule_post] *)
Definition _handle_process_schedule_post : Handler World :=
  fun task w now =>
    match validate task with
    | inl msg => (fail_task task msg now, w, Returns)
    | inr v =>
        match schedule_validated task v now w with
        | Ok task1 w1 => (task1, w1, Returns)
        | Exc msg w1 => (fail_task task msg now, w1, Returns)
        end
    end.

(** [_handle_post_status_update].  On a report of success with a
    platform post id, [post.platform_post_ids[platform]] is set: a list or
    dict as key is unhashable and raises; a key that is no string makes a
    document the store refuses, so [save_post] returns [False] and only the
    task is saved.  A report of failure is logged, nothing more.  In every
    case the post is then saved with a new [updated_at]. *)
Definition _handle_post_status_update : Handler World :=
  fun task w now =>
    match extract_data_part_by_content_type (data_parts task) "application/json" with
    | None => (fail_task task "No content data found in task" now, w, Returns)
    | Some data_part =>
        let data := Models.data data_part in
        let post_id := dict_get data "socialspark_post_id" in
        let platform := dict_get data "platform" in
        let status := dict_get data "status" in
        let platform_post_id := dict_get data "platform_post_id" in
        if negb (truthy post_id) then
          (fail_task task "socialspark_post_id is required" now, w, Returns)
        else if negb (truthy platform) then
          (fail_task task "platform is required" now, w, Returns)
        else if negb (truthy status) then
          (fail_task task "status is required" now, w, Returns)
        else
          match match post_id with
                | JStr id => get_post w id
                | _ => None
                end with
          | None => (task, w, Returns)
          | Some post =>
              let save (post : ScheduledPost) :=
                let post := set_post_updated_at post now in
                let w1 := fst (save_post w post) in
                (task,
                 with_task_storage w1
                   (fst (Storage.save_task (task_storage w1) task)),
                 Returns) in
              let save_task_only :=
                (task,
                 with_task_storage w
                   (fst (Storage.save_task (task_storage w) task)),
                 Returns) in
              if eq_str status "success" && truthy platform_post_id then
                match platform with
                | JStr p =>
                    save (set_platform_post_ids post
                            (<[p := platform_post_id]>
                               (platform_post_ids post)))
                | JList _ | JDict _ =>
                    (fail_task task (error_text lib (Unhashable platform)) now,
                     w, Returns)
                | _ => save_task_only
                end
              else save post
          end
    end.

End Handlers.

(** [ContentSchedulerAgent.__init__]: the agent with its two handlers
    registered. *)
Definition ContentSchedulerAgent (lib : Library) (w : World)
    : Agent World :=
  let a := mkAgent "content-scheduler-agent" ∅ ∅ ∅ [] w in
  let a := register_task_handler a "process_and_schedule_post"
             (_handle_process_schedule_post lib) in
  register_task_handler a "post_status_update"
    (_handle_post_status_update lib).

End Scheduler.

(* ===================================================================== *)
(** ** src/agents/platform_posting/facebook/agent.py *)
(* ===================================================================== *)

Module Facebook.
Import Models.

(** The payload [_send_post_status_update] builds:
<<
    data = {"socialspark_post_id": socialspark_post_id,
            "platform": "facebook", "status": status}
    if platform_post_id:
        data["platform_post_id"] = platform_post_id
    if error_message:
        data["error_message"] = error_message
>>
    The arguments are the values [_handle_publish_post] read from its own
    payload and from the API answer; an argument left out is [None]. *)
Definition status_update_data (socialspark_post_id : json) (status : string)
    (platform_post_id error_message : json) : list (string * json) :=
  [("socialspark_post_id", socialspark_post_id);
   ("platform", JStr "facebook"); ("status", JStr status)]
  ++ (if truthy platform_post_id
      then [("platform_post_id", platform_post_id)] else [])
  ++ (if truthy error_message
      then [("error_message", error_message)] else []).

(** The one data part of the task [_send_post_status_update] sends:
    [{"id": generate_id(), "content_type": "application/json",
      "data": data}], as [A2AClient.create_task] turns it into a
    [DataPart]. *)
Definition status_update_part (id : string) (data : list (string * json))
    : DataPart :=
  mkDataPart id "application/json" data None.

End Facebook.

(* ===================================================================== *)
(** ** Concrete agents, tasks and posts *)
(* ===================================================================== *)

Module Examples.
Import Models ContentModels Agent Scheduler.

(** The methods [Task] itself defines. *)
Definition task_methods (key : string) : bool :=
  existsb (String.eqb key) ["add_data_part"; "update_status"].

(** A handler that returns at once, and one that raises an exception
    whose text is [msg]. *)
Definition returning : Handler unit := fun task w _ => (task, w, Returns).
Definition raising (msg : string) : Handler unit :=
  fun task w _ => (task, w, Raises msg).

(** An agent with a handler for ["echo"] that returns and one for
    ["boom"] that runs [raise ValueError()], an exception without text. *)
Definition agent0 : Agent unit :=
  register_task_handler
    (register_task_handler (mkAgent "agent-1" ∅ ∅ ∅ [] tt) "echo" returning)
    "boom" (raising "").

Definition task0 : Task :=
  mkTask "t1" "echo" PENDING 0 0 "client" "agent-1" [] None None.
Definition task_boom : Task :=
  mkTask "t2" "boom" PENDING 0 0 "client" "agent-1" [] None None.
Definition task_elsewhere : Task :=
  mkTask "t3" "echo" PENDING 0 0 "client" "agent-2" [] None None.
Definition task_unknown : Task :=
  mkTask "t4" "translate" PENDING 0 0 "client" "agent-1" [] None None.

(** [task0] received at time 1 and processed at time 2. *)
Definition agent_completed : Agent unit :=
  run_background (fst (create_task agent0 task0 1)) 2.

(** A schedule request without any data part. *)
Definition task_no_data : Task :=
  mkTask "t1" "process_and_schedule_post" PENDING 0 0 "orchestrator"
    "content-scheduler-agent" [] None None.

Definition content1 : PlatformSpecificContent :=
  mkPlatformSpecificContent FACEBOOK (list_ascii_of_string "Hello")
    None None [] [].

Definition post1 : ScheduledPost :=
  mkScheduledPost "p1" "u1" "Hello" TEXT None [FACEBOOK] 100 SCHEDULED
    {["facebook" := content1]} ∅ (JDict []) 0 0.

(** The same post with another schedule time. *)
Definition post1_later : ScheduledPost :=
  mkScheduledPost "p1" "u1" "Hello" TEXT None [FACEBOOK] 250 SCHEDULED
    {["facebook" := content1]} ∅ (JDict []) 0 0.

(** A world that holds [post1] and whose network delivers nothing. *)
Definition world0 : World :=
  mkWorld {["p1" := post1]} ∅ ∅ None "./media"
    (fun n => "uuid") 0 (fun _ => true) (fun _ => Not_dispatched) [].

(** [post1] scheduled, and its job fired once. *)
Definition world_fired : World :=
  fire (_schedule_post_publication (start world0) post1) "publish_post_p1".

(** A report that the publication of [post1] on facebook failed. *)
Definition task_failure_report : Task :=
  mkTask "t9" "post_status_update" IN_PROGRESS 0 0 "facebook-posting-agent"
    "content-scheduler-agent"
    [mkDataPart "d1" "application/json"
       [("socialspark_post_id", JStr "p1"); ("platform", JStr "facebook");
        ("status", JStr "failure"); ("error_message", JStr "token expired")]
       None]
    None None.

Definition lib0 : Library :=
  mkLibrary (fun _ => None) (fun _ => "") (fun a b => a ++ "/" ++ b)
    (fun _ => "error").

Definition hashtag_template : list ascii := list_ascii_of_string "#{}".

(** A library whose [fromisoformat] reads every string as the instant
    100. *)
Definition lib_lenient : Library :=
  mkLibrary (fun _ => Some 100%Z) (fun _ => "1970-01-01T00:01:40")
    (fun a b => a ++ "/" ++ b) (fun _ => "error").

(** A complete schedule request for facebook and an unsupported
    platform. *)
Definition task_valid_request : Task :=
  mkTask "t5" "process_and_schedule_post" PENDING 0 0 "orchestrator"
    "content-scheduler-agent"
    [mkDataPart "d5" "application/json"
       [("user_id", JStr "u1"); ("raw_text", JStr "Hello #world");
        ("target_platforms", JList [JStr "Facebook"; JStr "myspace"]);
        ("schedule_time", JStr "1970-01-01T00:01:40Z")]
       None]
    None None.

(** A schedule request whose credentials for facebook are a string
    where a dict is declared. *)
Definition task_bad_credentials : Task :=
  mkTask "t6" "process_and_schedule_post" PENDING 0 0 "orchestrator"
    "content-scheduler-agent"
    [mkDataPart "d6" "application/json"
       [("user_id", JStr "u1"); ("raw_text", JStr "Hello #world");
        ("target_platforms", JList [JStr "facebook"]);
        ("schedule_time", JStr "1970-01-01T00:01:40Z");
        ("social_media_credentials", JDict [("facebook", JStr "token")])]
       None]
    None None.

(** What [validate] makes of [task_valid_request]. *)
Definition validated_request : Validated :=
  mkValidated (JStr "u1") (JStr "Hello #world") JNull [FACEBOOK] 100
    (JDict []).

Definition rules_with_limit (n : Z) : ContentAdaptationRules :=
  mkContentAdaptationRules FACEBOOK n hashtag_template None.

End Examples.

(* ===================================================================== *)
(** ** Observations on traces and texts used in the statements *)
(* ===================================================================== *)

Module Observe.
Import Models ContentModels Scheduler.

(** The events of the publish handler itself. *)
Definition handler_event (e : Event) : bool :=
  match e with
  | Post_saved _ _ | Task_sent _ _ _ => true
  | Publish_called _ | Queue_removed _ => false
  end.

(** The events of the drain loop among [evs]. *)
Definition queue_events (evs : list Event) : list Event :=
  List.filter (fun e => negb (handler_event e)) evs.

(** How often the publish handler was called for the post [p]. *)
Fixpoint publish_calls (p : string) (evs : list Event) : nat :=
  match evs with
  | [] => 0
  | Publish_called q :: rest =>
      (if String.eqb q p then 1 else 0) + publish_calls p rest
  | _ :: rest => publish_calls p rest
  end.

(** Whether, for the post [p], the first removal from the queue comes
    before the first call of the publish handler. *)
Fixpoint removed_before_called (p : string) (evs : list Event) : bool :=
  match evs with
  | [] => false
  | Queue_removed q :: rest =>
      if String.eqb q p then true else removed_before_called p rest
  | Publish_called q :: rest =>
      if String.eqb q p then false else removed_before_called p rest
  | _ :: rest => removed_before_called p rest
  end.

(** The marker [truncate_text] appends. *)
Definition ellipsis : list ascii := list_ascii_of_string "...".

(** Every id of the task map refers to an object of the heap. *)
Definition live_refs {W : Type} (a : Agent.Agent W) : Prop :=
  forall id r, Agent.tasks a !! id = Some r -> is_Some (Agent.heap a !! r).

(** Whether a stored post document passes the validation of
    [_dict_to_post]. *)
Definition validates (post : ScheduledPost) : bool :=
  valid_credentials (credentials post)
  && forallb (fun kv => is_JStr (snd kv))
             (map_to_list (platform_post_ids post)).

(** The target platforms of a post for which it has adapted content, in
    order. *)
Definition platforms_with_content (post : ScheduledPost)
    : list SocialPlatform :=
  List.filter
    (fun p => bool_decide
                (is_Some (platform_specific_content post
                            !! SocialPlatform_value p)))
    (target_platforms post).

(** The events of the publish tasks [_publish_post] sends for a post. *)
Definition publish_sends (post : ScheduledPost) : list Event :=
  map (fun p => Task_sent (target_agent_of p) "publish_post" (post_id post))
      (platforms_with_content post).

(** A post as [_publish_post] saves it at the time [now]. *)
Definition published (now : Z) (post : ScheduledPost) : ScheduledPost :=
  set_post_updated_at (set_post_status post PUBLISHED) now.

(** The events of one call of the publish handler for the id [p] in the
    world [w]: none when [get_post] returns no post, else the save and
    the sends. *)
Definition publish_events (w : World) (p : string) : list Event :=
  match get_post w p with
  | None => []
  | Some post => Post_saved p PUBLISHED :: publish_sends post
  end.

(** The events of a pass of the drain loop over the queue [q], read off
    the posts of the world the pass starts in: for each entry the call of
    the handler, the handler's own events, and then the removal. *)
Definition drain_events (w : World) (q : list string) : list Event :=
  flat_map (fun p => Publish_called p :: publish_events w p
                       ++ [Queue_removed p])%list q.

End Observe.

(* ===================================================================== *)
(** ** The task lifecycle in the agent runtime *)
(* ===================================================================== *)

Import Models Agent.

Section AgentFacts.
Context {W : Type}.
Implicit Types (a : Agent W) (task : Task).

Lemma TaskStatus_of_value_value s :
  TaskStatus_of_value (TaskStatus_value s) = Some s.
Proof. by destruct s. Qed.

(** What an accepted task leaves in the agent. *)
Lemma stored_after_accept a task now a' r :
  _handle_incoming_task a task now = inr (a', r) ->
  heap a' !! r = Some (update_status task IN_PROGRESS now) /\
  tasks a' = <[task_id task := r]> (tasks a) /\
  background a' = (background a ++ [r])%list /\
  task_handlers a' = task_handlers a /\ agent_id a' = agent_id a /\
  ext a' = ext a.
Proof.
  unfold _handle_incoming_task.
  destruct (negb _); [done|].
  destruct (task_handlers a !! type task); [|done].
  intros [= <- <-]. cbn.
  rewrite lookup_alter_eq, lookup_insert_eq. done.
Qed.

Lemma accept_when_valid a task now :
  target_agent_id task = agent_id a -> is_Some (task_handlers a !! type task) ->
  exists a' r, _handle_incoming_task a task now = inr (a', r).
Proof.
  intros Ht [h Hh]. unfold _handle_incoming_task.
  rewrite Ht, String.eqb_refl, Hh. cbn. eauto.
Qed.

Lemma reject_mismatch a task now :
  target_agent_id task <> agent_id a ->
  exists e, create_task a task now = (a, inl e) /\ status_code e = 400%Z.
Proof.
  intros Hne. unfold create_task, _handle_incoming_task.
  destruct (String.eqb_spec (target_agent_id task) (agent_id a)); [done|].
  cbn. eauto.
Qed.

Lemma reject_unknown_type a task now :
  task_handlers a !! type task = None ->
  exists e, create_task a task now = (a, inl e) /\ status_code e = 400%Z.
Proof.
  intros Hnone. unfold create_task, _handle_incoming_task.
  destruct (negb _); cbn; [eauto|]. rewrite Hnone. eauto.
Qed.

Lemma create_task_accept a task now a' r :
  _handle_incoming_task a task now = inr (a', r) ->
  create_task a task now = (a', inr (update_status task IN_PROGRESS now)) /\
  stored_task a' (task_id task) = Some (update_status task IN_PROGRESS now).
Proof.
  intros H. destruct (stored_after_accept _ _ _ _ _ H) as (Hh & Ht & _).
  unfold create_task, stored_task. rewrite H, Hh, Ht, lookup_insert_eq.
  cbn. by rewrite Hh.
Qed.

(** Acceptance does not depend on the time or on what is stored. *)
Lemma handle_incoming_task_cases a task now :
  (exists e, forall now', _handle_incoming_task a task now' = inl e) \/
  (exists a' r, _handle_incoming_task a task now = inr (a', r)).
Proof.
  unfold _handle_incoming_task.
  destruct (negb _); [left; eauto|].
  destruct (task_handlers a !! type task); [right|left]; eauto.
Qed.

Lemma accept_again a task now a' r now' :
  _handle_incoming_task a task now = inr (a', r) ->
  exists a'' r', _handle_incoming_task a' task now' = inr (a'', r').
Proof.
  intros H.
  destruct (stored_after_accept _ _ _ _ _ H) as (_ & _ & _ & Hh & Hi & _).
  revert H. unfold _handle_incoming_task. rewrite Hh, Hi.
  destruct (negb _); [done|].
  destruct (task_handlers a !! type task); [|done]. eauto.
Qed.

Lemma create_task_fst a task now a' r :
  _handle_incoming_task a task now = inr (a', r) ->
  fst (create_task a task now) = a'.
Proof. intros H. by destruct (create_task_accept _ _ _ _ _ H) as [-> _]. Qed.

Lemma process_task_raises a task now handler task1 w1 msg :
  task_handlers a !! type task = Some handler ->
  handler task (ext a) now = (task1, w1, Raises msg) ->
  _process_task a task now =
    Done (metadata_set (update_status task1 FAILED now) "error" (JStr msg)) w1.
Proof. intros Hh Hr. unfold _process_task. by rewrite Hh, Hr. Qed.

Lemma process_task_returns a task now handler task1 w1 :
  task_handlers a !! type task = Some handler ->
  handler task (ext a) now = (task1, w1, Returns) ->
  _process_task a task now = Done (update_status task1 COMPLETED now) w1.
Proof. intros Hh Hr. unfold _process_task. by rewrite Hh, Hr. Qed.

Lemma metadata_set_lookup task key v :
  exists m, metadata (metadata_set task key v) = Some m /\ m !! key = Some v.
Proof.
  unfold metadata_set. cbn. eexists. split; [done|]. apply lookup_insert_eq.
Qed.

Lemma update_task_status method_name a id r task s now :
  tasks a !! id = Some r -> heap a !! r = Some task ->
  let t' := set_updated_at (update_status task s now) now in
  update_task method_name a id [("status", JStr (TaskStatus_value s))] now
    = Patch_200 (with_heap a (<[r := t']> (heap a))) t'.
Proof.
  intros Hr Ht. unfold update_task. rewrite Hr, Ht. cbn.
  by rewrite TaskStatus_of_value_value.
Qed.

(** C5.  [_handle_incoming_task] (POST /tasks) answers 400 and leaves the
    agent as it was when the task's target is another agent, and when no
    handler is registered for the task's type.  Otherwise it stores the
    task object under its id, sets it to [IN_PROGRESS], queues
    [_process_task] for it behind the jobs already pending, and returns it
    with status [IN_PROGRESS]. *)
Theorem handle_incoming_task_spec a task now :
  (target_agent_id task <> agent_id a ->
     exists e, create_task a task now = (a, inl e) /\ status_code e = 400%Z) /\
  (task_handlers a !! type task = None ->
     exists e, create_task a task now = (a, inl e) /\ status_code e = 400%Z) /\
  (target_agent_id task = agent_id a ->
   is_Some (task_handlers a !! type task) ->
     exists a' r,
       _handle_incoming_task a task now = inr (a', r) /\
       tasks a' = <[task_id task := r]> (tasks a) /\
       heap a' !! r = Some (update_status task IN_PROGRESS now) /\
       stored_task a' (task_id task)
         = Some (update_status task IN_PROGRESS now) /\
       background a' = (background a ++ [r])%list /\
       create_task a task now
         = (a', inr (update_status task IN_PROGRESS now)) /\
       status (update_status task IN_PROGRESS now) = IN_PROGRESS).
Proof.
  split; [apply reject_mismatch|]. split; [apply reject_unknown_type|].
  intros Ht Hh. destruct (accept_when_valid a task now Ht Hh) as (a' & r & H).
  exists a', r. destruct (stored_after_accept _ _ _ _ _ H) as (? & ? & ? & _).
  destruct (create_task_accept _ _ _ _ _ H) as [? ?]. done.
Qed.

(** C6, amended.  If the handler raises an exception [e], then
    [_process_task] returns with the task in status [FAILED] and with
    [str(e)] under the key ["error"] of its metadata; that text is as long
    as the exception's own text is. *)
Theorem process_task_failed_with_error_text a task now handler task1 w1 msg :
  task_handlers a !! type task = Some handler ->
  handler task (ext a) now = (task1, w1, Raises msg) ->
  exists t' m,
    _process_task a task now = Done t' w1 /\
    status t' = FAILED /\
    metadata t' = Some m /\ m !! "error" = Some (JStr msg).
Proof.
  intros Hh Hr.
  destruct (metadata_set_lookup (update_status task1 FAILED now) "error"
              (JStr msg)) as (m & Hm & Hl).
  eexists _, m. split; [by eapply process_task_raises|]. done.
Qed.

(** C9.  Receiving the same task twice stores what a single receive
    stores: after the second receive the task stored under its id is the
    one a single receive at that time leaves there, it is the one the
    first receive left but for [updated_at], and the task map has the ids
    it had after the first receive.  Saving a task twice in the task store
    leaves the collection a single save leaves. *)
Theorem receive_twice_same_stored_task a task now1 now2
    (collection : gmap string Storage.TaskDict) :
  let a1 := fst (create_task a task now1) in
  let a2 := fst (create_task a1 task now2) in
  stored_task a2 (task_id task)
    = stored_task (fst (create_task a task now2)) (task_id task) /\
  erase_updated_at <$> stored_task a2 (task_id task)
    = erase_updated_at <$> stored_task a1 (task_id task) /\
  dom (tasks a2) = dom (tasks a1) /\
  size (tasks a2) = size (tasks a1) /\
  fst (Storage.save_task (fst (Storage.save_task collection task)) task)
    = fst (Storage.save_task collection task).
Proof.
  cbn zeta.
  assert (Hstore :
    fst (Storage.save_task (fst (Storage.save_task collection task)) task)
    = fst (Storage.save_task collection task)).
  { cbn. unfold Storage.replace_one_upsert. apply insert_insert_eq. }
  destruct (handle_incoming_task_cases a task now1) as [[e He]|(a1 & r1 & H1)].
  - assert (Hrej : forall now, create_task a task now = (a, inl e)).
    { intros now. unfold create_task. by rewrite He. }
    rewrite !Hrej. cbn [fst]. rewrite ?Hrej. done.
  - destruct (accept_again _ _ _ _ _ now2 H1) as (a2 & r2 & H2).
    assert (exists a3 r3, _handle_incoming_task a task now2 = inr (a3, r3))
      as (a3 & r3 & H3).
    { destruct (handle_incoming_task_cases a task now2) as [[e He]|?]; [|done].
      by rewrite He in H1. }
    rewrite (create_task_fst _ _ _ _ _ H1), (create_task_fst _ _ _ _ _ H2),
      (create_task_fst _ _ _ _ _ H3).
    destruct (create_task_accept _ _ _ _ _ H1) as [_ Hst1].
    destruct (create_task_accept _ _ _ _ _ H2) as [_ ->].
    destruct (create_task_accept _ _ _ _ _ H3) as [_ ->].
    rewrite Hst1.
    destruct (stored_after_accept _ _ _ _ _ H1) as (_ & Ht1 & _).
    destruct (stored_after_accept _ _ _ _ _ H2) as (_ & Ht2 & _).
    assert (Hdom : dom (tasks a2) = dom (tasks a1)).
    { rewrite Ht2, Ht1, !dom_insert_L.
      by rewrite (assoc_L (∪)), (idemp_L (∪)). }
    split_and!; [done|done|done| |done].
    by rewrite <- !size_dom, Hdom.
Qed.

(** C1, amended.  No operation that writes a status looks at the current
    one.  [update_status] assigns the status it is given.  PATCH
    /tasks/{task_id} with a status value sets the stored task to that
    status from any state, a terminal one included.  POST /tasks stores an
    accepted task as [IN_PROGRESS] whatever status the request carried
    and whatever task was stored under the id; that step is an edge only
    for a task posted [PENDING].  [_process_task] ends with the task
    [COMPLETED] when the handler returned and [FAILED] when it raised,
    whatever status the handler left; that step is an edge only when the
    handler left the task [IN_PROGRESS]. *)
Theorem status_is_written_without_check method_name a id r task s now :
  status (update_status task s now) = s /\
  (tasks a !! id = Some r -> heap a !! r = Some task ->
   exists a' t',
     update_task method_name a id [("status", JStr (TaskStatus_value s))] now
       = Patch_200 a' t' /\
     stored_task a' id = Some t' /\ status t' = s) /\
  (forall a' r', _handle_incoming_task a task now = inr (a', r') ->
     status <$> stored_task a' (task_id task) = Some IN_PROGRESS /\
     (edge (status task) IN_PROGRESS = true <-> status task = PENDING)) /\
  (forall handler task1 w1 outcome,
     task_handlers a !! type task = Some handler ->
     handler task (ext a) now = (task1, w1, outcome) ->
     exists t',
       _process_task a task now = Done t' w1 /\
       status t' = match outcome with
                   | Returns => COMPLETED
                   | Raises _ => FAILED
                   end /\
       (edge (status task1) (status t') = true
        <-> status task1 = IN_PROGRESS)).
Proof.
  split_and!.
  - done.
  - intros Hr Ht. eexists _, _. split; [by apply update_task_status|].
    unfold stored_task. cbn. rewrite Hr. cbn. by rewrite lookup_insert_eq.
  - intros a' r' H. destruct (create_task_accept _ _ _ _ _ H) as [_ ->].
    split; [done|]. by destruct (status task).
  - intros handler task1 w1 [|msg] Hh Hr.
    + eexists. split; [by eapply process_task_returns|].
      split; [done|]. cbn. by destruct (status task1).
    + eexists. split; [by eapply process_task_raises|].
      split; [done|]. cbn. by destruct (status task1).
Qed.

End AgentFacts.

Section AgentExamples.
Import Examples.

(** C5 at three tasks sent to [agent0]: one for another agent, one of a
    type without handler, one that is accepted. *)
Lemma handle_incoming_task_spec_witness :
  (exists e, create_task agent0 task_elsewhere 1 = (agent0, inl e) /\
             status_code e = 400%Z) /\
  (exists e, create_task agent0 task_unknown 1 = (agent0, inl e) /\
             status_code e = 400%Z) /\
  (exists a' r, _handle_incoming_task agent0 task0 1 = inr (a', r) /\
                status <$> stored_task a' "t1" = Some IN_PROGRESS).
Proof.
  split_and!.
  - apply (proj1 (handle_incoming_task_spec agent0 task_elsewhere 1)).
    discriminate.
  - apply (proj1 (proj2 (handle_incoming_task_spec agent0 task_unknown 1))).
    vm_compute. reflexivity.
  - destruct (proj2 (proj2 (handle_incoming_task_spec agent0 task0 1)))
      as (a' & r & H & _ & _ & Hs & _).
    + reflexivity.
    + vm_compute. eauto.
    + exists a', r. split; [exact H|]. change (task_id task0) with "t1" in Hs.
      rewrite Hs. reflexivity.
Defined.

(** C6 as stated fails: the handler for ["boom"] raises an exception
    without text, the task ends [FAILED], and the message under ["error"]
    is the empty string. *)
Lemma process_task_records_empty_error :
  let task := update_status task_boom IN_PROGRESS 1 in
  exists t' m,
    _process_task agent0 task 2 = Done t' tt /\
    status t' = FAILED /\
    metadata t' = Some m /\ m !! "error" = Some (JStr "").
Proof.
  cbn zeta. eexists _, _. split_and!.
  - vm_compute. reflexivity.
  - reflexivity.
  - reflexivity.
  - vm_compute. reflexivity.
Qed.

(** C6, amended, at a handler that raises with the text ["disk full"]. *)
Lemma process_task_failed_with_error_text_witness :
  let a := register_task_handler agent0 "boom" (raising "disk full") in
  exists t' m,
    _process_task a task_boom 2 = Done t' tt /\
    status t' = FAILED /\
    metadata t' = Some m /\ m !! "error" = Some (JStr "disk full").
Proof.
  cbn zeta.
  apply (process_task_failed_with_error_text
           (register_task_handler agent0 "boom" (raising "disk full"))
           task_boom 2 (raising "disk full") task_boom tt "disk full").
  - vm_compute. reflexivity.
  - reflexivity.
Defined.

(** C1 as stated fails: [task0] was received and processed and is
    [COMPLETED], a terminal state; PATCH with the status ["pending"] is
    answered 200 and the stored task is [PENDING]. *)
Lemma patch_moves_completed_task_to_pending :
  status <$> stored_task agent_completed "t1" = Some COMPLETED /\
  (exists a' t',
     update_task task_methods agent_completed "t1"
       [("status", JStr "pending")] 3 = Patch_200 a' t' /\
     stored_task a' "t1" = Some t' /\ status t' = PENDING) /\
  terminal COMPLETED = true /\ edge COMPLETED PENDING = false.
Proof.
  split_and!; [vm_compute; reflexivity| |reflexivity|reflexivity].
  eexists _, _. split_and!.
  - vm_compute. reflexivity.
  - vm_compute. reflexivity.
  - reflexivity.
Qed.

(** The receive path does the same: [task0], completed, is posted again
    and its stored status goes from [COMPLETED] back to [IN_PROGRESS]. *)
Lemma post_moves_completed_task_to_in_progress :
  status <$> stored_task agent_completed "t1" = Some COMPLETED /\
  status <$> stored_task (fst (create_task agent_completed task0 3)) "t1"
    = Some IN_PROGRESS /\
  edge COMPLETED IN_PROGRESS = false.
Proof. split_and!; vm_compute; reflexivity. Qed.

(** C1, amended, at the completed [task0] of [agent_completed], patched
    to ["canceled"], at [task0] received by [agent0], and at its
    processing by a handler that returns and by one that raises. *)
Lemma status_is_written_without_check_witness :
  (exists a' t',
     update_task task_methods agent_completed "t1"
       [("status", JStr "canceled")] 3 = Patch_200 a' t' /\
     stored_task a' "t1" = Some t' /\ status t' = CANCELED) /\
  (exists t', _process_task agent0 (update_status task0 IN_PROGRESS 1) 2
                = Done t' tt /\
              status t' = COMPLETED) /\
  (exists t', _process_task agent0 (update_status task_boom IN_PROGRESS 1) 2
                = Done t' tt /\
              status t' = FAILED).
Proof.
  split_and!.
  - apply (proj1 (proj2 (status_is_written_without_check task_methods
                    agent_completed "t1" 0%nat
                    (update_status (update_status task0 IN_PROGRESS 1)
                       COMPLETED 2)
                    CANCELED 3))).
    + vm_compute. reflexivity.
    + vm_compute. reflexivity.
  - destruct (proj2 (proj2 (proj2 (status_is_written_without_check
                    task_methods agent0 "t1" 0%nat
                    (update_status task0 IN_PROGRESS 1) CANCELED 2)))
                returning (update_status task0 IN_PROGRESS 1) tt Returns)
      as (t' & H & Hs & _).
    + vm_compute. reflexivity.
    + reflexivity.
    + exists t'. split; [exact H|exact Hs].
  - destruct (proj2 (proj2 (proj2 (status_is_written_without_check
                    task_methods agent0 "t2" 0%nat
                    (update_status task_boom IN_PROGRESS 1) CANCELED 2)))
                (raising "") (update_status task_boom IN_PROGRESS 1) tt
                (Raises ""))
      as (t' & H & Hs & _).
    + vm_compute. reflexivity.
    + reflexivity.
    + exists t'. split; [exact H|exact Hs].
Defined.

End AgentExamples.

(* ===================================================================== *)
(** ** Content adaptation *)
(* ===================================================================== *)

Import ContentModels Adapters Observe.

Section TruncateFacts.
#[local] Open Scope Z_scope.
Implicit Types (s text : str) (c : ascii).

(** Deciding a comparison on [Z] from the arithmetic context. *)
Ltac decide_leb a b :=
  first [ rewrite (proj2 (Z.leb_le a b)) by lia
        | rewrite (proj2 (Z.leb_gt a b)) by lia ].
Ltac decide_ltb a b :=
  first [ rewrite (proj2 (Z.ltb_lt a b)) by lia
        | rewrite (proj2 (Z.ltb_ge a b)) by lia ].
Ltac decide_cmp :=
  repeat match goal with
  | |- context [?a <=? ?b] => decide_leb a b
  | |- context [?a <? ?b] => decide_ltb a b
  end.

(** [rfind] finds the last occurrence, if there is one. *)
Lemma rfind_spec s c :
  (rfind s c = -1 /\ forall i : nat, s !! i <> Some c) \/
  (exists i : nat, rfind s c = Z.of_nat i /\ s !! i = Some c /\
                   forall j : nat, (i < j)%nat -> s !! j <> Some c).
Proof.
  induction s as [|x s IH]; cbn [rfind].
  - left. split; [done|]. by intros [|i].
  - destruct IH as [[-> Hno]|(i & -> & Hi & Hlast)].
    + cbn. destruct (Ascii.eqb_spec x c) as [->|Hne].
      * right. exists 0%nat. split_and!; [done|done|].
        intros [|j] Hj; [lia|]. cbn. apply Hno.
      * left. split; [done|]. intros [|j]; cbn; [congruence|apply Hno].
    + decide_cmp.
      right. exists (S i). split_and!; [lia|done|].
      intros [|j] Hj; [lia|]. cbn. apply Hlast. lia.
Qed.

Lemma slice_to_nonneg s n : 0 <= n -> slice_to s n = take (Z.to_nat n) s.
Proof. intros H. unfold slice_to. by decide_cmp. Qed.

Lemma len_app s1 s2 : len (s1 ++ s2) = len s1 + len s2.
Proof. unfold len. rewrite length_app. lia. Qed.

(** A text within the limit is returned as it is. *)
Lemma truncate_text_fits text max_length :
  len text <= max_length -> truncate_text text max_length = text.
Proof. intros H. unfold truncate_text. by decide_cmp. Qed.

(** A longer text is cut to the limit, then back to the last space of the
    cut unless that space is its first character, and the ellipsis is
    appended. *)
Lemma truncate_text_cuts text max_length :
  0 <= max_length -> max_length < len text ->
  exists n : nat,
    truncate_text text max_length = (take n text ++ ellipsis)%list /\
    Z.of_nat n <= max_length /\
    ((n = Z.to_nat max_length /\
      forall j : nat, (0 < j < n)%nat -> text !! j <> Some " "%char) \/
     ((0 < n)%nat /\ text !! n = Some " "%char /\
      forall j : nat, (n < j)%nat -> Z.of_nat j < max_length ->
                      text !! j <> Some " "%char)).
Proof.
  intros H0 Hlt. unfold truncate_text, len in *.
  decide_cmp. rewrite !(slice_to_nonneg text max_length) by done.
  set (N := Z.to_nat max_length).
  assert (HN : (N <= length text)%nat) by lia.
  destruct (rfind_spec (take N text) " "%char)
    as [[-> Hno]|(i & -> & Hi & Hlast)].
  - decide_cmp. rewrite length_take. decide_cmp.
    exists N. split_and!; [done|lia|]. left. split; [done|].
    intros j Hj. specialize (Hno j). by rewrite lookup_take_lt in Hno by lia.
  - assert (HiN : (i < N)%nat).
    { apply lookup_lt_Some in Hi. rewrite length_take in Hi. lia. }
    rewrite lookup_take_lt in Hi by lia.
    destruct i as [|i].
    + decide_cmp. rewrite length_take. decide_cmp.
      exists N. split_and!; [done|lia|]. left. split; [done|].
      intros j Hj. specialize (Hlast j). rewrite lookup_take_lt in Hlast by lia.
      apply Hlast. lia.
    + decide_cmp. rewrite slice_to_nonneg by lia.
      rewrite Nat2Z.id, take_take. replace (S i `min` N)%nat with (S i) by lia.
      rewrite length_take. decide_cmp.
      exists (S i). split_and!; [done|lia|]. right. split_and!; [lia|done|].
      intros j Hj Hjm. specialize (Hlast j Hj).
      by rewrite lookup_take_lt in Hlast by lia.
Qed.

Lemma content_budget_nonneg max_text_length hashtag_text :
  0 <= max_text_length -> 0 <= content_budget max_text_length hashtag_text.
Proof.
  intros H. unfold content_budget, half.
  destruct (_ <? 0) eqn:E; [|lia]. apply Z.quot_pos; lia.
Qed.

(** How the adapted text is put together from body and hashtags. *)
Lemma adapt_text_shape hashtags formatted clean_text max_text_length :
  let hashtag_text := join_space formatted in
  let budget := match hashtags with
                | [] => max_text_length
                | _ => content_budget max_text_length hashtag_text
                end in
  let body := truncate_text clean_text budget in
  let adapted := adapt_text hashtags formatted clean_text max_text_length in
  adapted = body \/
  (hashtags <> [] /\ body = [] /\ adapted = hashtag_text) \/
  (hashtags <> [] /\ adapted = (body ++ " "%char :: hashtag_text)%list).
Proof.
  cbn zeta. unfold adapt_text. destruct hashtags as [|h hs]; [by left|].
  destruct (truncate_text _ _) as [|b bs]; [right; left; done|].
  destruct (join_space formatted) as [|t ts]; [by left|].
  right; right. done.
Qed.


End TruncateFacts.

Section AdapterExamples.
Import Examples.
#[local] Open Scope Z_scope.

(** Without image requirements the metadata step does not raise. *)
Lemma adapt_metadata_no_requirements image_reference platform n fmt :
  exists md,
    adapt_metadata image_reference platform
      (mkContentAdaptationRules platform n fmt None) = Some md.
Proof.
  unfold adapt_metadata. cbn.
  destruct (bool_decide (platform = INSTAGRAM)),
           (bool_decide (platform = TWITTER)),
           (has_image image_reference); cbn; eauto.
Qed.

(** Without image requirements the metadata is empty. *)
Lemma adapt_metadata_none_empty image_reference platform n fmt :
  adapt_metadata image_reference platform
    (mkContentAdaptationRules platform n fmt None) = Some [].
Proof.
  unfold adapt_metadata. cbn.
  destruct (bool_decide (platform = INSTAGRAM)),
           (bool_decide (platform = TWITTER)),
           (has_image image_reference); reflexivity.
Qed.

(** C8.  For the raw text ["Hello #world #test"] and a limit of 280 the
    extracted hashtags are ["world"] and ["test"] and the cleaned body is
    ["Hello"]; with the template ["#{}"] the formatted hashtags are
    ["#world"] and ["#test"], and [adapt_content_for_platform] returns the
    text ["Hello #world #test"] with the hashtags ["world"] and ["test"],
    the image reference it was given and empty metadata, on every
    platform, and under the agent's own rules for Twitter.  The text is
    put together from the body and the formatted hashtags: with any
    template whose formatted hashtags are not empty and leave room for the
    body, the text is ["Hello"], a space and those hashtags; and with the
    first hashtag moved in front of the body the text is the same. *)
Theorem adapt_hello_world_test :
  let raw := list_ascii_of_string "Hello #world #test" in
  let tags := [list_ascii_of_string "world"; list_ascii_of_string "test"] in
  let body := list_ascii_of_string "Hello" in
  let adapted := list_ascii_of_string "Hello #world #test" in
  extract_hashtags raw = tags /\
  strip (sub_hashtags 0 raw) = body /\
  format_hashtags tags hashtag_template
    = Some [list_ascii_of_string "#world"; list_ascii_of_string "#test"] /\
  (forall image_reference platform,
     adapt_content_for_platform raw image_reference platform
       (mkContentAdaptationRules platform 280 hashtag_template None)
     = Some (mkPlatformSpecificContent platform adapted image_reference None
               tags [])) /\
  adapt_content_for_platform raw None TWITTER
    (Scheduler.adaptation_rules TWITTER)
    = Some (mkPlatformSpecificContent TWITTER adapted None None tags []) /\
  (forall image_reference platform template formatted,
     format_hashtags tags template = Some formatted ->
     join_space formatted <> [] -> len (join_space formatted) <= 274 ->
     adapt_content_for_platform raw image_reference platform
       (mkContentAdaptationRules platform 280 template None)
     = Some (mkPlatformSpecificContent platform
               (body ++ " "%char :: join_space formatted)%list
               image_reference None tags [])) /\
  (forall image_reference platform,
     adapt_content_for_platform (list_ascii_of_string "#world Hello #test")
       image_reference platform
       (mkContentAdaptationRules platform 280 hashtag_template None)
     = Some (mkPlatformSpecificContent platform adapted image_reference None
               tags [])).
Proof.
  cbn zeta.
  split_and!; [vm_compute; reflexivity|vm_compute; reflexivity|
               vm_compute; reflexivity| |vm_compute; reflexivity| |].
  - intros image_reference platform. unfold adapt_content_for_platform.
    rewrite adapt_metadata_none_empty. reflexivity.
  - intros image_reference platform template formatted Hf Hne Hlen.
    unfold adapt_content_for_platform.
    rewrite adapt_metadata_none_empty.
    cbn [max_text_length hashtag_format].
    change (extract_hashtags (list_ascii_of_string "Hello #world #test"))
      with [list_ascii_of_string "world"; list_ascii_of_string "test"].
    rewrite Hf.
    change (strip (sub_hashtags 0 (list_ascii_of_string "Hello #world #test")))
      with (list_ascii_of_string "Hello").
    unfold adapt_text, content_budget.
    set (hashtag_text := join_space formatted) in *.
    rewrite (proj2 (Z.ltb_ge (280 - len hashtag_text - 1) 0)) by lia.
    rewrite truncate_text_fits by (change (len (list_ascii_of_string "Hello"))
                                     with 5; lia).
    destruct hashtag_text; [done|reflexivity].
  - intros image_reference platform. unfold adapt_content_for_platform.
    rewrite adapt_metadata_none_empty. reflexivity.
Qed.

(** C8 with the template ["[{}]"]: the hashtags come back in brackets
    behind the body. *)
Lemma adapt_hello_world_test_witness :
  adapt_content_for_platform (list_ascii_of_string "Hello #world #test")
    None FACEBOOK
    (mkContentAdaptationRules FACEBOOK 280 (list_ascii_of_string "[{}]") None)
  = Some (mkPlatformSpecificContent FACEBOOK
            (list_ascii_of_string "Hello [world] [test]") None None
            [list_ascii_of_string "world"; list_ascii_of_string "test"] []).
Proof.
  refine (proj1 (proj2 (proj2 (proj2 (proj2 (proj2 adapt_hello_world_test)))))
            None FACEBOOK (list_ascii_of_string "[{}]")
            [list_ascii_of_string "[world]"; list_ascii_of_string "[test]"]
            _ _ _).
  - vm_compute. reflexivity.
  - vm_compute. discriminate.
  - vm_compute. discriminate.
Defined.


(** The ellipsis is not counted in the limit [truncate_text] is given. *)
Example truncate_text_overshoots :
  truncate_text (list_ascii_of_string "abcdefg hij klm") 9
    = list_ascii_of_string "abcdefg..." /\
  len (truncate_text (list_ascii_of_string "abcdefg hij klm") 9) = 10.
Proof. split; vm_compute; reflexivity. Qed.


End AdapterExamples.

(* ===================================================================== *)
(** ** Deferred publication: scheduler, publish queue, drain loop *)
(* ===================================================================== *)

Import Utils Scheduler.

Section SchedulerFacts.
Implicit Types (w : World) (post : ScheduledPost) (p id : string).

(** A post that [get_post] returns is a stored document, read under the
    id it was asked for. *)
Lemma get_post_Some w id post :
  get_post w id = Some post ->
  exists doc, post_storage w !! id = Some doc /\ post = set_post_id doc id.
Proof.
  unfold get_post, Storage.find_one, _dict_to_post.
  destruct (post_storage w !! id) as [doc|]; [|done].
  destruct (_ && _); [|done]. intros [= <-]. eauto.
Qed.

Lemma publish_to_platform_spec post w plat :
  post_storage (publish_to_platform post w plat) = post_storage w /\
  _publish_queue (publish_to_platform post w plat) = _publish_queue w /\
  (trace (publish_to_platform post w plat) = trace w \/
   trace (publish_to_platform post w plat) =
     (trace w ++
      [Task_sent (target_agent_of plat) "publish_post" (post_id post)])%list).
Proof.
  unfold publish_to_platform.
  destruct (platform_specific_content post !! _); [|by auto].
  destruct (network _ _); cbn; auto.
Qed.

(** The loop over the platforms only sends tasks. *)
Lemma publish_loop_spec post platforms w :
  let w' := fold_left (publish_to_platform post) platforms w in
  post_storage w' = post_storage w /\
  _publish_queue w' = _publish_queue w /\
  exists sends,
    trace w' = (trace w ++ sends)%list /\
    Forall (fun e => exists target,
              e = Task_sent target "publish_post" (post_id post)) sends.
Proof.
  revert w. induction platforms as [|plat platforms IH]; intros w; cbn.
  - split_and!; try done. exists []. by rewrite app_nil_r.
  - destruct (IH (publish_to_platform post w plat))
      as (Hs & Hq & sends & Ht & Hall).
    destruct (publish_to_platform_spec post w plat) as (Hs1 & Hq1 & Ht1).
    split_and!; [congruence|congruence|].
    destruct Ht1 as [Ht1|Ht1]; rewrite Ht1 in Ht.
    + eauto.
    + eexists (_ :: sends). rewrite Ht, <- app_assoc. split; [done|].
      constructor; eauto.
Qed.

(** [_publish_post] on a post that is found: the post is saved as
    published, then tasks are sent. *)
Lemma publish_post_found w id now post :
  get_post w id = Some post ->
  let post' := set_post_updated_at (set_post_status post PUBLISHED) now in
  let w' := _publish_post w id now in
  post_storage w' = <[id := post']> (post_storage w) /\
  _publish_queue w' = _publish_queue w /\
  exists sends,
    trace w' = (trace w ++ Post_saved id PUBLISHED :: sends)%list /\
    Forall (fun e => exists target, e = Task_sent target "publish_post" id)
           sends.
Proof.
  intros Hg. cbn zeta. unfold _publish_post. rewrite Hg.
  destruct (get_post_Some _ _ _ Hg) as (doc & _ & ->).
  match goal with |- context [fold_left ?f ?l ?w0] =>
    destruct (publish_loop_spec
      (set_post_updated_at (set_post_status (set_post_id doc id) PUBLISHED) now)
      l w0) as (Hs & Hq & sends & Ht & Hall) end.
  cbn zeta in *. rewrite Hs, Hq, Ht. cbn.
  split_and!; [done|done|]. exists sends. rewrite <- app_assoc. done.
Qed.

(** [_publish_post] leaves the queue alone and adds only events of its
    own. *)
Lemma publish_post_spec w id now :
  let w' := _publish_post w id now in
  _publish_queue w' = _publish_queue w /\
  exists evs, trace w' = (trace w ++ evs)%list /\
              forallb handler_event evs = true.
Proof.
  cbn zeta. destruct (get_post w id) as [post|] eqn:Hg.
  - destruct (publish_post_found _ _ now _ Hg) as (_ & Hq & sends & Ht & Hall).
    split; [done|]. eexists. split; [done|]. cbn.
    apply forallb_forall. intros e He. apply Forall_forall with (x := e) in Hall.
    + by destruct Hall as [t ->].
    + by apply list_elem_of_In.
  - unfold _publish_post. rewrite Hg. split; [done|]. exists [].
    by rewrite app_nil_r.
Qed.

Lemma list_remove_head p q : list_remove p (p :: q) = Some q.
Proof. cbn. by rewrite String.eqb_refl. Qed.

Lemma queue_events_app evs1 evs2 :
  queue_events (evs1 ++ evs2) = (queue_events evs1 ++ queue_events evs2)%list.
Proof. apply List.filter_app. Qed.

Lemma queue_events_handler evs :
  forallb handler_event evs = true -> queue_events evs = [].
Proof.
  induction evs as [|e evs IH]; [done|]. cbn.
  destruct (handler_event e); cbn; [auto|done].
Qed.

Lemma publish_calls_app p evs1 evs2 :
  publish_calls p (evs1 ++ evs2) = publish_calls p evs1 + publish_calls p evs2.
Proof.
  induction evs1 as [|e evs1 IH]; [done|]. cbn.
  destruct e; rewrite ?IH; lia.
Qed.

Lemma publish_calls_handler p evs :
  forallb handler_event evs = true -> publish_calls p evs = 0.
Proof.
  induction evs as [|e evs IH]; [done|]. cbn.
  destruct e; cbn; auto; done.
Qed.

Lemma publish_to_platform_trace post w plat :
  trace (publish_to_platform post w plat) =
    (trace w ++
     if bool_decide (is_Some (platform_specific_content post
                                !! SocialPlatform_value plat))
     then [Task_sent (target_agent_of plat) "publish_post" (post_id post)]
     else [])%list /\
  scheduler (publish_to_platform post w plat) = scheduler w.
Proof.
  unfold publish_to_platform.
  destruct (platform_specific_content post !! _) as [c|].
  - rewrite bool_decide_eq_true_2 by by eexists.
    by destruct (network _ _).
  - rewrite bool_decide_eq_false_2 by by intros [? ?].
    by rewrite app_nil_r.
Qed.

Lemma publish_loop_trace post platforms w :
  trace (fold_left (publish_to_platform post) platforms w) =
    (trace w ++
     map (fun plat => Task_sent (target_agent_of plat) "publish_post"
                        (post_id post))
       (List.filter
          (fun plat => bool_decide
             (is_Some (platform_specific_content post
                         !! SocialPlatform_value plat)))
          platforms))%list /\
  scheduler (fold_left (publish_to_platform post) platforms w) = scheduler w.
Proof.
  revert w. induction platforms as [|plat platforms IH]; intros w; cbn.
  - by rewrite app_nil_r.
  - destruct (IH (publish_to_platform post w plat)) as [-> ->].
    destruct (publish_to_platform_trace post w plat) as [-> ->].
    split; [|done]. destruct (bool_decide _); cbn.
    + by rewrite <- app_assoc.
    + by rewrite app_nil_r.
Qed.

(** [_publish_post] on a post that is found, in full: the events, the
    stored document, and what stays. *)
Lemma publish_post_exact w id now post :
  get_post w id = Some post ->
  let post' := set_post_updated_at (set_post_status post PUBLISHED) now in
  let w' := _publish_post w id now in
  trace w' = (trace w ++ Post_saved id PUBLISHED :: publish_sends post)%list /\
  scheduler w' = scheduler w /\
  _publish_queue w' = _publish_queue w /\
  get_post w' id = Some post'.
Proof.
  intros Hg. cbn zeta.
  destruct (publish_post_found w id now post Hg) as (Hs & Hq & _).
  cbn zeta in Hs, Hq.
  destruct (get_post_Some _ _ _ Hg) as (doc & Hd & ->).
  split_and!.
  - unfold _publish_post. rewrite Hg.
    match goal with |- context [fold_left ?f ?l ?w0] =>
      destruct (publish_loop_trace
        (set_post_updated_at (set_post_status (set_post_id doc id) PUBLISHED)
           now) l w0) as [-> _] end.
    cbn. by rewrite <- app_assoc.
  - unfold _publish_post. rewrite Hg.
    match goal with |- context [fold_left ?f ?l ?w0] =>
      destruct (publish_loop_trace
        (set_post_updated_at (set_post_status (set_post_id doc id) PUBLISHED)
           now) l w0) as [_ ->] end.
    done.
  - exact Hq.
  - unfold get_post, Storage.find_one. rewrite Hs, lookup_insert_eq.
    revert Hg. unfold get_post, Storage.find_one, _dict_to_post.
    rewrite Hd. cbn. by destruct (_ && _).
Qed.

(** One round of the drain loop on the entry at the head of the queue:
    the handler is called, does its work, and then the entry is removed. *)
Lemma drain_entry_head w p rest now :
  _publish_queue w = Some (p :: rest) ->
  let w' := drain_entry now w p in
  _publish_queue w' = Some rest /\
  exists evs,
    trace w' = (trace w ++ Publish_called p :: evs ++ [Queue_removed p])%list /\
    forallb handler_event evs = true.
Proof.
  intros Hq. cbn zeta. unfold drain_entry.
  destruct (publish_post_spec (record w (Publish_called p)) p now)
    as (Hq1 & evs & Ht & Hev). cbn zeta in *.
  rewrite Hq1. cbn [record _publish_queue]. rewrite Hq.
  cbv [default from_option Datatypes.id]. rewrite list_remove_head.
  cbn. split; [done|].
  exists evs. rewrite Ht. cbn. rewrite <- !app_assoc. done.
Qed.

(** The loop over a snapshot that is the whole queue, by induction on the
    snapshot: the queue is what remains of the snapshot. *)
Lemma drain_loop_spec now snapshot w :
  _publish_queue w = Some snapshot ->
  let w' := fold_left (drain_entry now) snapshot w in
  _publish_queue w' = Some [] /\
  exists evs,
    trace w' = (trace w ++ evs)%list /\
    queue_events evs =
      flat_map (fun p => [Publish_called p; Queue_removed p]) snapshot /\
    forall p, publish_calls p evs = count_occ string_dec snapshot p.
Proof.
  revert w. induction snapshot as [|p rest IH]; intros w Hq; cbn zeta.
  - cbn. split; [done|]. exists []. by rewrite app_nil_r.
  - cbn [fold_left].
    destruct (drain_entry_head w p rest now Hq) as (Hq1 & evs1 & Ht1 & Hev1).
    cbn zeta in *.
    destruct (IH _ Hq1) as (Hq2 & evs2 & Ht2 & Hqe & Hcount). cbn zeta in *.
    split; [done|].
    exists ((Publish_called p :: evs1 ++ [Queue_removed p]) ++ evs2)%list.
    split_and!.
    + rewrite Ht2, Ht1. by rewrite <- !app_assoc.
    + rewrite queue_events_app. cbn. rewrite queue_events_app,
        (queue_events_handler _ Hev1). cbn. by rewrite Hqe.
    + intros p'. rewrite publish_calls_app. cbn [publish_calls].
      rewrite publish_calls_app, (publish_calls_handler _ _ Hev1), Hcount. cbn.
      destruct (string_dec p p') as [->|Hne].
      * rewrite String.eqb_refl. lia.
      * apply String.eqb_neq in Hne. rewrite Hne. lia.
Qed.

Lemma publish_sends_published now post :
  publish_sends (published now post) = publish_sends post.
Proof. reflexivity. Qed.

Lemma published_twice now post :
  published now (published now post) = published now post.
Proof. reflexivity. Qed.

(** The posts after one call of the publish handler: the post of that id
    is the published one, if [get_post] returned it, and the others are
    as before. *)
Lemma publish_post_get_post w id now id' :
  get_post (_publish_post w id now) id'
    = if decide (id' = id) then published now <$> get_post w id
      else get_post w id'.
Proof.
  destruct (get_post w id) as [post|] eqn:Hg.
  - destruct (publish_post_found w id now post Hg) as (Hs & _).
    destruct (publish_post_exact w id now post Hg) as (_ & _ & _ & Hg').
    cbn zeta in Hs, Hg'. destruct (decide (id' = id)) as [->|Hne].
    + by rewrite Hg'.
    + unfold get_post, Storage.find_one. rewrite Hs.
      by rewrite lookup_insert_ne.
  - unfold _publish_post. rewrite Hg. by destruct (decide _) as [->|].
Qed.

(** One round of the drain loop on the entry at the head of the queue, in
    full: the call, the handler's events, then the removal. *)
Lemma drain_entry_exact w p rest now :
  _publish_queue w = Some (p :: rest) ->
  let w' := drain_entry now w p in
  _publish_queue w' = Some rest /\
  trace w' = (trace w ++ Publish_called p :: publish_events w p
                      ++ [Queue_removed p])%list /\
  forall id, get_post w' id
               = if decide (id = p) then published now <$> get_post w p
                 else get_post w id.
Proof.
  intros Hq. cbn zeta. unfold drain_entry.
  set (called := record w (Publish_called p)).
  assert (Hgc : forall id, get_post called id = get_post w id) by done.
  destruct (publish_post_spec called p now) as (Hq1 & _). cbn zeta in Hq1.
  change (_publish_queue called) with (_publish_queue w) in Hq1.
  assert (Ht : trace (_publish_post called p now)
               = (trace w ++ Publish_called p :: publish_events w p)%list).
  { unfold publish_events. rewrite <- (Hgc p).
    destruct (get_post called p) as [post|] eqn:Hg.
    - destruct (publish_post_exact called p now post Hg) as (-> & _).
      cbn. by rewrite <- app_assoc.
    - unfold _publish_post. by rewrite Hg. }
  pose proof (publish_post_get_post called p now) as Hget.
  set (w1 := _publish_post called p now) in *.
  rewrite Hq1, Hq. cbv [default from_option Datatypes.id].
  rewrite list_remove_head. split_and!.
  - done.
  - cbn. rewrite Ht, <- app_assoc. done.
  - intros id. rewrite <- (Hgc p), <- (Hgc id), <- Hget. done.
Qed.

Lemma drain_events_cons w p q :
  drain_events w (p :: q)
    = (Publish_called p :: publish_events w p
         ++ Queue_removed p :: drain_events w q)%list.
Proof. unfold drain_events. cbn. by rewrite <- app_assoc. Qed.

Lemma publish_events_ext w w' :
  (forall id, publish_events w' id = publish_events w id) ->
  forall q, drain_events w' q = drain_events w q.
Proof.
  intros H q. unfold drain_events.
  induction q as [|p q IH]; [done|]. cbn. by rewrite H, IH.
Qed.

(** The loop over a snapshot that is the whole queue, in full. *)
Lemma drain_loop_exact now snapshot w :
  _publish_queue w = Some snapshot ->
  let w' := fold_left (drain_entry now) snapshot w in
  _publish_queue w' = Some [] /\
  trace w' = (trace w ++ drain_events w snapshot)%list /\
  forall id, get_post w' id
               = if decide (id ∈ snapshot) then published now <$> get_post w id
                 else get_post w id.
Proof.
  revert w. induction snapshot as [|p rest IH]; intros w Hq; cbn zeta.
  - cbn. split_and!; [done|by rewrite app_nil_r|].
    intros id. destruct (decide _) as [Hin|]; [|done].
    by apply elem_of_nil in Hin.
  - cbn [fold_left].
    destruct (drain_entry_exact w p rest now Hq) as (Hq1 & Ht1 & Hg1).
    cbn zeta in *.
    destruct (IH _ Hq1) as (Hq2 & Ht2 & Hg2). cbn zeta in *.
    assert (Hev : forall id, publish_events (drain_entry now w p) id
                             = publish_events w id).
    { intros id. unfold publish_events. rewrite Hg1.
      destruct (decide (id = p)) as [->|]; [|done].
      by destruct (get_post w p). }
    split_and!.
    + done.
    + rewrite Ht2, Ht1, (publish_events_ext _ _ Hev), drain_events_cons.
      rewrite <- !app_assoc. cbn. rewrite <- !app_assoc. done.
    + intros id. rewrite Hg2, Hg1.
      destruct (decide (id = p)) as [->|Hne].
      * rewrite (decide_True (P := p ∈ p :: rest)) by (apply elem_of_cons; by left).
        destruct (decide (p ∈ rest)); [|done].
        destruct (get_post w p); [|done]. cbn. by rewrite published_twice.
      * destruct (decide (id ∈ rest)) as [Hin|Hnin].
        -- by rewrite decide_True by (apply elem_of_cons; by right).
        -- rewrite decide_False; [done|].
           intros Hin. by apply elem_of_cons in Hin as [?|?].
Qed.

Lemma queue_events_drain_events w q :
  queue_events (drain_events w q)
    = flat_map (fun p => [Publish_called p; Queue_removed p]) q.
Proof.
  induction q as [|p q IH]; [done|]. unfold drain_events. cbn.
  rewrite queue_events_app, queue_events_app. fold (drain_events w q).
  rewrite IH. rewrite queue_events_handler; [done|].
  unfold publish_events. destruct (get_post w p) as [post|]; [|done].
  cbn. unfold publish_sends. by induction (platforms_with_content post).
Qed.

Lemma publish_calls_drain_events w q p :
  publish_calls p (drain_events w q) = count_occ string_dec q p.
Proof.
  induction q as [|p0 q IH]; [done|]. unfold drain_events. cbn.
  rewrite publish_calls_app, publish_calls_app. fold (drain_events w q).
  rewrite IH. rewrite publish_calls_handler.
  - cbn. destruct (string_dec p0 p) as [->|Hne].
    + rewrite String.eqb_refl. lia.
    + apply String.eqb_neq in Hne. rewrite Hne. lia.
  - unfold publish_events. destruct (get_post w p0) as [post|]; [|done].
    cbn. unfold publish_sends. by induction (platforms_with_content post).
Qed.

(** C2, amended.  One pass of the drain loop goes through the queue in
    order and, for each entry, calls the publish handler, which does its
    work (for a post [get_post] returns: the save as published and the
    sends; else nothing), and removes the entry from the queue after that
    call has returned: the events of the pass are exactly these, entry by
    entry.  The handler is called for a post id as often as the id stands
    in the queue, once for an id enqueued by a single firing.  After the
    pass every post of the queue that [get_post] returned reads as
    published and the other posts read as before.  The pass leaves the
    queue empty, so the pass after it does nothing. *)
Theorem drain_pass_calls_then_removes w q now now' :
  _publish_queue w = Some q ->
  let w1 := drain_pass w now in
  trace w1 = (trace w ++ drain_events w q)%list /\
  queue_events (drain_events w q)
    = flat_map (fun p => [Publish_called p; Queue_removed p]) q /\
  (forall p, publish_calls p (drain_events w q) = count_occ string_dec q p) /\
  (forall id, get_post w1 id
                = if decide (id ∈ q) then published now <$> get_post w id
                  else get_post w id) /\
  _publish_queue w1 = Some [] /\
  drain_pass w1 now' = w1.
Proof.
  intros Hq. cbn zeta.
  assert (Hpass : drain_pass w now = fold_left (drain_entry now) q w).
  { unfold drain_pass. rewrite Hq. by destruct q. }
  rewrite Hpass.
  destruct (drain_loop_exact now q w Hq) as (Hq' & Ht & Hg). cbn zeta in *.
  split_and!; [done|apply queue_events_drain_events|
               apply publish_calls_drain_events|done|done|].
  unfold drain_pass. by rewrite Hq'.
Qed.

Lemma publish_post_wrapper_spec w p :
  _publish_queue (publish_post_wrapper w p)
    = Some (default [] (_publish_queue w) ++ [p])%list /\
  scheduler (publish_post_wrapper w p) = scheduler w.
Proof.
  unfold publish_post_wrapper.
  destruct (_publish_queue w) eqn:E; cbn; rewrite ?E; done.
Qed.

Lemma fire_present w j job p :
  scheduler w !! j = Some job -> args job = [p] ->
  fire w j = publish_post_wrapper (with_scheduler w (delete j (scheduler w))) p.
Proof. intros Hj Ha. unfold fire. by rewrite Hj, Ha. Qed.

Lemma fire_absent w j : scheduler w !! j = None -> fire w j = w.
Proof. intros Hj. unfold fire. by rewrite Hj. Qed.

(** C3.  Scheduling two posts of the same id, one after the other, leaves
    one job for that post: the job ["publish_post_<id>"] with the second
    post's schedule time.  The job store is the one a single scheduling of
    the second post gives, it has as many jobs as after the first
    scheduling, and no other job changed.  The job fires once: the firing
    appends the post id to the publish queue once and the job is gone. *)
Theorem schedule_twice_keeps_one_job w post1 post2 :
  post_id post1 = post_id post2 ->
  let job_id := "publish_post_" ++ post_id post2 in
  let w1 := _schedule_post_publication w post1 in
  let w2 := _schedule_post_publication w1 post2 in
  scheduler w2 !! job_id = Some (mkJob (schedule_time post2) [post_id post2]) /\
  scheduler w2 = scheduler (_schedule_post_publication w post2) /\
  size (scheduler w2) = size (scheduler w1) /\
  (forall j, j <> job_id -> scheduler w2 !! j = scheduler w !! j) /\
  _publish_queue (fire w2 job_id)
    = Some (default [] (_publish_queue w2) ++ [post_id post2])%list /\
  scheduler (fire w2 job_id) !! job_id = None /\
  fire (fire w2 job_id) job_id = fire w2 job_id.
Proof.
  intros Hid. cbn zeta.
  set (job_id := "publish_post_" ++ post_id post2).
  set (w1 := _schedule_post_publication w post1).
  set (w2 := _schedule_post_publication w1 post2).
  set (job := mkJob (schedule_time post2) [post_id post2]).
  assert (Hs2 : scheduler w2 = <[job_id := job]> (scheduler w)).
  { subst w2 w1 job_id. unfold _schedule_post_publication,
      add_job_replace_existing. cbn. by rewrite Hid, insert_insert_eq. }
  assert (Hs1 : scheduler w1
            = <[job_id := mkJob (schedule_time post1) [post_id post1]]>
                (scheduler w)).
  { subst w1 job_id. unfold _schedule_post_publication,
      add_job_replace_existing. cbn. by rewrite Hid. }
  assert (Hl : scheduler w2 !! job_id = Some job).
  { rewrite Hs2. apply lookup_insert_eq. }
  assert (Hfire : fire w2 job_id = publish_post_wrapper
            (with_scheduler w2 (delete job_id (scheduler w2))) (post_id post2)).
  { by apply fire_present with (job := job). }
  assert (Hgone : scheduler (fire w2 job_id) !! job_id = None).
  { rewrite Hfire.
    destruct (publish_post_wrapper_spec
      (with_scheduler w2 (delete job_id (scheduler w2))) (post_id post2))
      as [_ ->].
    cbn. apply lookup_delete_eq. }
  split_and!.
  - done.
  - done.
  - by rewrite Hs2, Hs1, !map_size_insert.
  - intros j Hj. rewrite Hs2. by rewrite lookup_insert_ne.
  - rewrite Hfire.
    by destruct (publish_post_wrapper_spec
      (with_scheduler w2 (delete job_id (scheduler w2))) (post_id post2))
      as [-> _].
  - done.
  - by apply fire_absent.
Qed.

Lemma save_post_status w post id :
  post_status <$> post_storage (fst (save_post w post)) !! id =
    if decide (post_id post = id) then Some (post_status post)
    else post_status <$> post_storage w !! id.
Proof.
  unfold save_post, Storage.replace_one_upsert. cbn.
  rewrite lookup_insert. by destruct (decide _).
Qed.

(** No status update changes the status of a stored post, whatever it
    reports. *)
Lemma status_update_keeps_post_status lib task w now id :
  post_status <$>
    post_storage (snd (fst (_handle_post_status_update lib task w now))) !! id
  = post_status <$> post_storage w !! id.
Proof.
  unfold _handle_post_status_update.
  destruct (extract_data_part_by_content_type _ _) as [data_part|]; [|done].
  repeat (match goal with |- context [if negb ?b then _ else _] =>
            destruct b; cbn [negb]; [|done] end).
  match goal with |- context [match ?g with Some _ => _ | None => _ end] =>
    destruct g as [post|] eqn:Hg; [|done] end.
  assert (Hpost : exists id0 doc, post_storage w !! id0 = Some doc /\
                                  post = set_post_id doc id0).
  { destruct (dict_get _ "socialspark_post_id"); try done.
    destruct (get_post_Some _ _ _ Hg) as (doc & ? & ?). eauto. }
  destruct Hpost as (id0 & doc & Hdoc & ->).
  assert (Hsave : forall post',
    post_id post' = id0 -> post_status post' = post_status doc ->
    post_status <$> post_storage (fst (save_post w post')) !! id
    = post_status <$> post_storage w !! id).
  { intros post' Hid Hst. rewrite save_post_status.
    destruct (decide _) as [Heq|]; [|done].
    by rewrite <- Heq, Hid, Hdoc, Hst. }
  destruct (_ && _).
  - destruct (dict_get _ "platform"); cbn; try done; by apply Hsave.
  - cbn. by apply Hsave.
Qed.

(** What [get_post] makes of a stored document. *)
Lemma get_post_stored w id doc :
  post_storage w !! id = Some doc ->
  get_post w id = if validates doc then Some (set_post_id doc id) else None.
Proof.
  intros Hd. unfold get_post, Storage.find_one, _dict_to_post, validates.
  by rewrite Hd.
Qed.

(** C10, amended.  For a post id present in the post store whose document
    validates on load, [_publish_post] stores the post with status
    [PUBLISHED] and does so before any task is sent: the first event it
    adds is the save, the later ones are the sends, whatever the network
    does with them; a status update that arrives afterwards, whatever it
    reports, leaves the stored status [PUBLISHED].  For a post id present
    in the store whose document does not validate, [get_post] returns
    nothing, [_publish_post] does nothing, and the stored status stays as
    it was, also after a status update. *)
Theorem publish_post_saves_published_first lib task w id now doc :
  post_storage w !! id = Some doc ->
  let w1 := _publish_post w id now in
  let w2 := snd (fst (_handle_post_status_update lib task w1 now)) in
  get_post w id = (if validates doc then Some (set_post_id doc id) else None) /\
  (validates doc = true ->
     post_status <$> post_storage w1 !! id = Some PUBLISHED /\
     post_status <$> get_post w1 id = Some PUBLISHED /\
     trace w1 = (trace w ++ Post_saved id PUBLISHED
                   :: publish_sends (set_post_id doc id))%list /\
     Forall (fun e => exists target, e = Task_sent target "publish_post" id)
            (publish_sends (set_post_id doc id)) /\
     post_status <$> post_storage w2 !! id = Some PUBLISHED) /\
  (validates doc = false ->
     w1 = w /\
     post_status <$> post_storage w2 !! id = Some (post_status doc)).
Proof.
  intros Hd. cbn zeta. pose proof (get_post_stored w id doc Hd) as Hget.
  split; [exact Hget|]. split.
  - intros Hv. rewrite Hv in Hget.
    destruct (publish_post_found w id now _ Hget) as (Hs & _).
    destruct (publish_post_exact w id now _ Hget) as (Ht & _ & _ & Hg').
    cbn zeta in Hs, Ht, Hg'.
    assert (H1 : post_status <$> post_storage (_publish_post w id now) !! id
                 = Some PUBLISHED).
    { by rewrite Hs, lookup_insert_eq. }
    split_and!; [done|by rewrite Hg'|done| |].
    + unfold publish_sends. cbn [post_id set_post_id].
      induction (platforms_with_content _) as [|plat l IH]; [done|].
      constructor; [by eexists|done].
    + by rewrite status_update_keeps_post_status.
  - intros Hv. rewrite Hv in Hget.
    assert (Hw : _publish_post w id now = w).
    { unfold _publish_post. by rewrite Hget. }
    split; [done|].
    by rewrite status_update_keeps_post_status, Hw, Hd.
Qed.

Lemma fail_task_spec task msg now :
  status (fail_task task msg now) = FAILED /\
  exists m, metadata (fail_task task msg now) = Some m /\
            m !! "error" = Some (JStr msg).
Proof.
  unfold fail_task. cbn. split; [done|].
  eexists. split; [done|]. apply lookup_insert_eq.
Qed.

(** The handler answers a validation error by setting the task to
    [FAILED] with the error text, and returns; the completion in
    [_process_task] then writes [COMPLETED] over it. *)
Lemma validation_error_ends_completed lib (a : Agent World) task now msg :
  task_handlers a !! type task = Some (_handle_process_schedule_post lib) ->
  validate lib task = inl msg ->
  exists t m,
    _process_task a task now = Done t (ext a) /\
    status t = COMPLETED /\
    metadata t = Some m /\ m !! "error" = Some (JStr msg).
Proof.
  intros Hh Hv.
  destruct (fail_task_spec task msg now) as (_ & m & Hm & Hl).
  exists (update_status (fail_task task msg now) COMPLETED now), m.
  split; [|done].
  unfold _process_task, Handler in *. rewrite Hh.
  unfold _handle_process_schedule_post. by rewrite Hv.
Qed.

End SchedulerFacts.

Section SchedulerExamples.
Import Examples.

(** C2 as stated fails: [post1] is scheduled, its job fires once and
    the queue holds ["p1"]; in the pass of the startup hook the publish
    handler is called, saves the post and sends its task, and only then is
    ["p1"] removed from the queue. *)
Lemma drain_calls_handler_before_removing :
  _publish_queue world_fired = Some ["p1"] /\
  trace (process_publish_queue world_fired 10)
    = [Publish_called "p1"; Post_saved "p1" PUBLISHED;
       Task_sent "facebook-posting-agent" "publish_post" "p1";
       Queue_removed "p1"] /\
  removed_before_called "p1" (trace (process_publish_queue world_fired 10))
    = false.
Proof. split_and!; vm_compute; reflexivity. Qed.

(** C2, amended, at the queue that one firing for [post1] leaves. *)
Lemma drain_pass_calls_then_removes_witness :
  trace (drain_pass world_fired 10)
    = [Publish_called "p1"; Post_saved "p1" PUBLISHED;
       Task_sent "facebook-posting-agent" "publish_post" "p1";
       Queue_removed "p1"] /\
  post_status <$> get_post (drain_pass world_fired 10) "p1" = Some PUBLISHED /\
  drain_pass (drain_pass world_fired 10) 40 = drain_pass world_fired 10.
Proof.
  destruct (drain_pass_calls_then_removes world_fired ["p1"] 10 40)
    as (Ht & _ & _ & Hg & _ & Hagain).
  - vm_compute. reflexivity.
  - split_and!.
    + rewrite Ht. vm_compute. reflexivity.
    + rewrite Hg. vm_compute. reflexivity.
    + exact Hagain.
Defined.

(** C3 at [post1], scheduled for 100 and then for 250. *)
Lemma schedule_twice_keeps_one_job_witness :
  scheduler (_schedule_post_publication
               (_schedule_post_publication world0 post1) post1_later)
    !! "publish_post_p1"
  = Some (mkJob 250 ["p1"]).
Proof.
  exact (proj1 (schedule_twice_keeps_one_job world0 post1 post1_later eq_refl)).
Defined.

(** C10 at [post1], published and then reported as failed on facebook. *)
Lemma publish_post_saves_published_first_witness :
  let w1 := _publish_post world0 "p1" 5 in
  let w2 := snd (fst (_handle_post_status_update lib0 task_failure_report
                        w1 5%Z)) in
  post_status <$> post_storage w1 !! "p1" = Some PUBLISHED /\
  trace w1 = [Post_saved "p1" PUBLISHED;
              Task_sent "facebook-posting-agent" "publish_post" "p1"] /\
  post_status <$> post_storage w2 !! "p1" = Some PUBLISHED.
Proof.
  cbn zeta.
  destruct (publish_post_saves_published_first lib0 task_failure_report
              world0 "p1" 5 post1) as (_ & Hvalid & _).
  - vm_compute. reflexivity.
  - destruct Hvalid as (H1 & _ & Ht & _ & H2); [vm_compute; reflexivity|].
    split_and!; [exact H1| |exact H2].
    rewrite Ht. vm_compute. reflexivity.
Defined.

(** C10 as stated fails: a schedule request whose credentials for
    facebook are a string is accepted by the handler, which assigns the
    credentials unvalidated and stores the post as [SCHEDULED]; the stored
    document does not validate on load, so [get_post] returns nothing for
    the id although it is in the store.  The job fires, the drain loop
    calls [_publish_post], which saves nothing and sends nothing, and the
    stored status is still [SCHEDULED]. *)
Lemma publish_skips_post_with_invalid_credentials :
  let w1 := snd (fst (_handle_process_schedule_post lib_lenient
                        task_bad_credentials (start world0) 7%Z)) in
  let fired := fire w1 "publish_post_uuid" in
  let drained := drain_pass fired 200%Z in
  post_status <$> post_storage w1 !! "uuid" = Some SCHEDULED /\
  validates <$> post_storage w1 !! "uuid" = Some false /\
  get_post w1 "uuid" = None /\
  _publish_post w1 "uuid" 200%Z = w1 /\
  _publish_queue fired = Some ["uuid"] /\
  trace drained
    = [Post_saved "uuid" SCHEDULED; Publish_called "uuid";
       Queue_removed "uuid"] /\
  post_status <$> post_storage drained !! "uuid" = Some SCHEDULED.
Proof. cbn zeta. split_and!; vm_compute; reflexivity. Qed.

(** C4.  A schedule request without data part fails validation with
    ["No content data found in task"].  Received by the content scheduler
    and processed, its stored task carries that text under ["error"] and
    has status [COMPLETED], not [FAILED]: the handler had set [FAILED] and
    returned, and [_process_task] then wrote [COMPLETED]. *)
Theorem validation_failure_overwritten_by_completed lib w now :
  let agent := ContentSchedulerAgent lib w in
  let received := fst (create_task agent task_no_data now) in
  let processed := run_background received now in
  validate lib task_no_data = inl "No content data found in task" /\
  status (fst (fst (_handle_process_schedule_post lib task_no_data w now)))
    = FAILED /\
  status <$> stored_task received "t1" = Some IN_PROGRESS /\
  status <$> stored_task processed "t1" = Some COMPLETED /\
  (stored_task processed "t1" ≫= metadata) ≫= (.!! "error")
    = Some (JStr "No content data found in task") /\
  background processed = [].
Proof. cbn zeta. split_and!; vm_compute; reflexivity. Qed.

End SchedulerExamples.

(* ===================================================================== *)
(** ** Further properties: models, utilities and the task store *)
(* ===================================================================== *)

Section ModelFacts.

(** X1.  [TaskStatus(value)] and [.value] are inverse to each other: a
    string is read as a status exactly when it is that status's value;
    every other string raises. *)
Theorem TaskStatus_of_value_iff (s : TaskStatus) (v : string) :
  TaskStatus_of_value v = Some s <-> v = TaskStatus_value s.
Proof.
  split.
  - unfold TaskStatus_of_value.
    repeat match goal with
           | |- context [String.eqb v ?c] =>
               destruct (String.eqb_spec v c) as [->|_]; [by intros [= <-]|]
           end.
    done.
  - intros ->. by destruct s.
Qed.

(** X2.  [extract_data_part_by_content_type] returns the first data part
    of the content type asked for: no part before it has that type; it
    returns [None] exactly when no part has it. *)
Theorem extract_data_part_first_match (parts : list DataPart) (ct : string) :
  match Utils.extract_data_part_by_content_type parts ct with
  | Some dp =>
      exists before after,
        parts = (before ++ dp :: after)%list /\
        content_type dp = ct /\
        Forall (fun d => content_type d <> ct) before
  | None => Forall (fun d => content_type d <> ct) parts
  end.
Proof.
  induction parts as [|d parts IH]; cbn; [done|].
  destruct (String.eqb_spec (content_type d) ct) as [Heq|Hne].
  - exists [], parts. done.
  - destruct (Utils.extract_data_part_by_content_type parts ct) as [dp|].
    + destruct IH as (before & after & -> & Hct & Hall).
      exists (d :: before), after. split_and!; [done|done|by constructor].
    + by constructor.
Qed.

Lemma dict_to_task_to_dict task :
  Storage._dict_to_task (Storage._task_to_dict task) = task.
Proof. by destruct task. Qed.

(** X3.  A task saved in the task store is read back as it was saved,
    under its own id, and the save changes what no other id reads. *)
Theorem save_task_get_task_round_trip
    (collection : gmap string Storage.TaskDict) (task : Task) (id : string) :
  snd (Storage.save_task collection task) = true /\
  Storage.get_task (fst (Storage.save_task collection task)) id
    = if decide (id = task_id task) then Some task
      else Storage.get_task collection id.
Proof.
  unfold Storage.get_task, Storage.find_one, Storage.save_task,
    Storage.replace_one_upsert. cbn. split; [done|].
  destruct (decide _) as [->|Hne].
  - rewrite lookup_insert_eq. cbn. by rewrite dict_to_task_to_dict.
  - by rewrite lookup_insert_ne.
Qed.

(** X4.  [update_task_status] never creates a task: the store has the
    same ids afterwards.  The task under the id, if there is one, is read
    back with the new status and time and otherwise as before; no other
    id reads differently; the answer is [True] exactly when there was such
    a task and its status or time changed. *)
Theorem update_task_status_never_creates
    (collection : gmap string Storage.TaskDict) (id id' : string)
    (s : TaskStatus) (now : Z) :
  let result := Storage.update_task_status collection id s now in
  dom (fst result) = dom collection /\
  Storage.get_task (fst result) id'
    = (if decide (id' = id)
       then (fun task => set_updated_at (set_status task s) now)
              <$> Storage.get_task collection id
       else Storage.get_task collection id') /\
  (snd result = true <->
   exists task, Storage.get_task collection id = Some task /\
                (status task <> s \/ updated_at task <> now)).
Proof.
  cbn zeta.
  unfold Storage.update_task_status, Storage.update_one_set_status,
    Storage.get_task, Storage.find_one.
  destruct (collection !! id) as [[k t]|] eqn:Hl; cbn.
  - split_and!.
    + rewrite dom_insert_L. apply elem_of_dom_2 in Hl.
      apply subseteq_union_1_L. by apply singleton_subseteq_l.
    + destruct (decide _) as [->|Hne].
      * by rewrite lookup_insert_eq.
      * by rewrite lookup_insert_ne.
    + destruct (bool_decide_reflect (status t = s)) as [Hs|Hs];
        destruct (Z.eqb_spec (updated_at t) now) as [Hn|Hn]; cbn.
      * split; [done|]. intros (task & [= <-] & [?|?]); done.
      * split; [|done]. intros _. eexists. split; [done|]. by right.
      * split; [|done]. intros _. eexists. split; [done|]. by left.
      * split; [|done]. intros _. eexists. split; [done|]. by left.
  - split_and!; [done| |].
    + destruct (decide _) as [->|_]; [by rewrite Hl|done].
    + split; [done|]. by intros (task & ? & _).
Qed.

End ModelFacts.

(* ===================================================================== *)
(** ** Further properties: the task endpoints *)
(* ===================================================================== *)

Section AgentExtras.
Context {W : Type}.
Implicit Types (a : Agent W) (task : Task).

Lemma fresh_heap_not_live a r :
  is_Some (heap a !! r) -> r <> fresh (dom (heap a)).
Proof.
  intros Hr ->. apply elem_of_dom in Hr. by apply is_fresh in Hr.
Qed.

(** An object of the heap before an accepted task is the same after. *)
Lemma accept_keeps_objects a task now a' r r' :
  _handle_incoming_task a task now = inr (a', r) ->
  is_Some (heap a !! r') -> heap a' !! r' = heap a !! r'.
Proof.
  intros H Hr'. revert H. unfold _handle_incoming_task.
  destruct (negb _); [done|].
  destruct (task_handlers a !! type task); [|done].
  intros [= <- <-]. cbn.
  rewrite lookup_alter_ne by by apply not_eq_sym, fresh_heap_not_live.
  by rewrite lookup_insert_ne by by apply not_eq_sym, fresh_heap_not_live.
Qed.

Lemma run_background_tasks a now : tasks (run_background a now) = tasks a.
Proof.
  unfold run_background.
  destruct (background a) as [|r0 rest]; [done|]. cbn.
  destruct (heap a !! r0) as [task|]; [|done].
  by destruct (_process_task _ _ _).
Qed.

Lemma run_background_heap a now r :
  is_Some (heap a !! r) -> is_Some (heap (run_background a now) !! r).
Proof.
  intros Hr. unfold run_background.
  destruct (background a) as [|r0 rest]; [done|]. cbn.
  destruct (heap a !! r0) as [task|] eqn:H0; [|done].
  destruct (_process_task _ _ _) as [task' w'|]; [|done]. cbn.
  rewrite lookup_insert. destruct (decide _); [by eexists|done].
Qed.

(** The operations keep every id of the task map on a live object. *)
Lemma live_refs_kept method_name a task id update_data now :
  live_refs a ->
  live_refs (fst (create_task a task now)) /\
  live_refs (run_background a now) /\
  match update_task method_name a id update_data now with
  | Patch_200 a' _ | Patch_500 a' => live_refs a'
  | Patch_404 _ | Patch_untyped => True
  end.
Proof.
  intros Hwf. split_and!.
  - destruct (handle_incoming_task_cases a task now) as [[e He]|(a' & r & H)].
    + unfold create_task. by rewrite He.
    + rewrite (create_task_fst _ _ _ _ _ H).
      pose proof (stored_after_accept _ _ _ _ _ H) as (Hh & Ht & _).
      intros id' r'. rewrite Ht, lookup_insert.
      destruct (decide _) as [_|_].
      * intros [= <-]. by rewrite Hh.
      * intros Hr'. specialize (Hwf _ _ Hr').
        by rewrite (accept_keeps_objects _ _ _ _ _ _ H Hwf).
  - intros id' r' Hr'. rewrite run_background_tasks in Hr'.
    apply run_background_heap. eauto.
  - unfold update_task. destruct (tasks a !! id) as [r|] eqn:Hr; [|done].
    destruct (heap a !! r) as [t|] eqn:Ht; [|done].
    destruct (update_fields _ _ _ _) as [t1|t1|]; [| |done].
    + intros id' r' Hr'. cbn in *. rewrite lookup_insert.
      destruct (decide _); [by eexists|eauto].
    + intros id' r' Hr'. cbn in *. rewrite lookup_insert.
      destruct (decide _); [by eexists|eauto].
Qed.

(** X5.  After an accepted POST, GET of the task's id answers the task
    in status [IN_PROGRESS], and GET of any other id answers what it
    answered before. *)
Theorem create_task_then_get_task a task now a' r id :
  live_refs a ->
  _handle_incoming_task a task now = inr (a', r) ->
  get_task a' id
    = if decide (id = task_id task)
      then inr (update_status task IN_PROGRESS now)
      else get_task a id.
Proof.
  intros Hwf H. destruct (create_task_accept _ _ _ _ _ H) as [_ Hst].
  destruct (decide _) as [->|Hne].
  - unfold get_task. by rewrite Hst.
  - unfold get_task, stored_task.
    pose proof (stored_after_accept _ _ _ _ _ H) as (_ & Ht & _).
    rewrite Ht, lookup_insert_ne by done.
    destruct (tasks a !! id) as [r'|] eqn:Hr'; [|done]. cbn.
    by rewrite (accept_keeps_objects _ _ _ _ _ _ H (Hwf _ _ Hr')).
Qed.

Lemma update_fields_ignored method_name task update_data now :
  Forall (fun kv => hasattr method_name (fst kv) = false) update_data ->
  update_fields method_name task update_data now = Updated_ok task.
Proof.
  induction 1 as [|[key value] rest Hk _ IH]; [done|].
  cbn in *. by rewrite Hk.
Qed.

(** X6.  PATCH with keys that are no attribute of the task changes no
    field but [updated_at] and answers 200 with the task; for an id that
    is not stored, PATCH and GET both answer 404. *)
Theorem patch_ignores_unknown_keys method_name a id update_data now :
  Forall (fun kv => hasattr method_name (fst kv) = false) update_data ->
  match stored_task a id with
  | None =>
      exists e, update_task method_name a id update_data now = Patch_404 e /\
                status_code e = 404%Z /\ get_task a id = inl e
  | Some task =>
      exists a',
        update_task method_name a id update_data now
          = Patch_200 a' (set_updated_at task now) /\
        stored_task a' id = Some (set_updated_at task now)
  end.
Proof.
  intros Hall. unfold stored_task, update_task, get_task, stored_task.
  destruct (tasks a !! id) as [r|] eqn:Hr; cbn; [|eauto].
  destruct (heap a !! r) as [task|] eqn:Ht; cbn; [|eauto].
  rewrite update_fields_ignored by done.
  eexists. split; [done|]. cbn. rewrite Hr. cbn. by rewrite lookup_insert_eq.
Qed.

Lemma with_heap_same a r task :
  heap a !! r = Some task -> with_heap a (<[r := task]> (heap a)) = a.
Proof. intros H. rewrite insert_id by done. by destruct a. Qed.

(** X7.  PATCH whose first item is a status string that is no status
    value raises (answer 500) and leaves the agent as it was: the status,
    [updated_at] and the fields named by the later items are untouched. *)
Theorem patch_invalid_status_changes_nothing method_name a id r task v rest
    now :
  tasks a !! id = Some r -> heap a !! r = Some task ->
  TaskStatus_of_value v = None ->
  update_task method_name a id (("status", JStr v) :: rest) now = Patch_500 a.
Proof.
  intros Hr Ht Hv. unfold update_task. rewrite Hr, Ht. cbn. rewrite Hv.
  by rewrite with_heap_same.
Qed.

(** X8.  A task posted twice has two objects and two background jobs,
    and the task map holds the second object: when the first job has run,
    GET still answers the task as the second POST left it, [IN_PROGRESS],
    whatever the handler did; the second job is still to run. *)
Theorem second_receive_hides_first_job a task now1 now2 now3 a1 r1 a2 r2 :
  background a = [] ->
  _handle_incoming_task a task now1 = inr (a1, r1) ->
  _handle_incoming_task a1 task now2 = inr (a2, r2) ->
  r1 <> r2 /\
  background a2 = [r1; r2] /\
  stored_task (run_background a2 now3) (task_id task)
    = Some (update_status task IN_PROGRESS now2) /\
  background (run_background a2 now3) = [r2].
Proof.
  intros Hb H1 H2.
  pose proof (stored_after_accept _ _ _ _ _ H1) as (Hh1 & Ht1 & Hb1 & _).
  pose proof (stored_after_accept _ _ _ _ _ H2) as (Hh2 & Ht2 & Hb2 & _).
  assert (Hne : r1 <> r2).
  { assert (r2 = fresh (dom (heap a1))) as ->.
    { revert H2. unfold _handle_incoming_task. destruct (negb _); [done|].
      destruct (task_handlers a1 !! type task); [|done]. by intros [= <- <-]. }
    apply fresh_heap_not_live. by rewrite Hh1. }
  rewrite Hb in Hb1. cbn in Hb1. rewrite Hb1 in Hb2. cbn in Hb2.
  split_and!; [done|done| |].
  - unfold run_background, stored_task. rewrite Hb2. cbn.
    destruct (heap a2 !! r1) as [t1|]; cbn.
    + destruct (_process_task _ _ _) as [t' w'|]; cbn.
      * rewrite Ht2, lookup_insert_eq. cbn. by rewrite lookup_insert_ne.
      * rewrite Ht2, lookup_insert_eq. cbn. done.
    + rewrite Ht2, lookup_insert_eq. cbn. done.
  - unfold run_background. rewrite Hb2. cbn.
    destruct (heap a2 !! r1) as [t1|]; cbn; [|done].
    by destruct (_process_task _ _ _).
Qed.

(** X9.  The last handler registered for a task type is the one in
    force: registering twice equals registering the second alone, a task
    of that type for this agent is accepted, and [_process_task] runs the
    second handler on it. *)
Theorem last_registered_handler_wins a ty (h1 h2 : Handler W) task now :
  type task = ty -> target_agent_id task = agent_id a ->
  let a2 := register_task_handler (register_task_handler a ty h1) ty h2 in
  a2 = register_task_handler a ty h2 /\
  (exists a' r, _handle_incoming_task a2 task now = inr (a', r)) /\
  _process_task a2 task now =
    match h2 task (ext a) now with
    | (task1, w1, Returns) => Done (update_status task1 COMPLETED now) w1
    | (task1, w1, Raises msg) =>
        Done (metadata_set (update_status task1 FAILED now) "error"
                (JStr msg)) w1
    end.
Proof.
  intros Hty Htarget. cbn zeta. split_and!.
  - unfold register_task_handler, with_handlers. cbn.
    by rewrite insert_insert_eq.
  - apply accept_when_valid; [done|]. cbn. rewrite Hty, lookup_insert_eq.
    by eexists.
  - unfold _process_task. cbn. by rewrite Hty, lookup_insert_eq.
Qed.

End AgentExtras.

Section AgentExtrasExamples.
Import Examples.

Lemma live_refs_agent0 : live_refs agent0.
Proof. intros id r H. vm_compute in H. discriminate H. Defined.

(** X5 at [task0] posted to [agent0]. *)
Lemma create_task_then_get_task_witness :
  exists a' r,
    _handle_incoming_task agent0 task0 1 = inr (a', r) /\
    get_task a' "t1" = inr (update_status task0 IN_PROGRESS 1) /\
    get_task a' "t7" = get_task agent0 "t7".
Proof.
  destruct (accept_when_valid agent0 task0 1) as (a' & r & H).
  - reflexivity.
  - vm_compute. eauto.
  - exists a', r. split; [exact H|]. split.
    + exact (create_task_then_get_task agent0 task0 1 a' r "t1"
               live_refs_agent0 H).
    + exact (create_task_then_get_task agent0 task0 1 a' r "t7"
               live_refs_agent0 H).
Defined.

(** X6 at the completed [task0] and a key that is no attribute. *)
Lemma patch_ignores_unknown_keys_witness :
  exists a',
    update_task task_methods agent_completed "t1" [("colour", JStr "red")] 9
      = Patch_200 a'
          (set_updated_at
             (update_status (update_status task0 IN_PROGRESS 1) COMPLETED 2)
             9).
Proof.
  destruct (patch_ignores_unknown_keys task_methods agent_completed "t1"
              [("colour", JStr "red")] 9) as (a' & H & _).
  - repeat constructor.
  - exists a'. exact H.
Defined.

(** X7 at the completed [task0] and the status ["done"]. *)
Lemma patch_invalid_status_changes_nothing_witness :
  update_task task_methods agent_completed "t1"
    [("status", JStr "done"); ("type", JStr "other")] 9
  = Patch_500 agent_completed.
Proof.
  apply (patch_invalid_status_changes_nothing task_methods agent_completed
           "t1" 0%nat
           (update_status (update_status task0 IN_PROGRESS 1) COMPLETED 2)).
  - vm_compute. reflexivity.
  - vm_compute. reflexivity.
  - reflexivity.
Defined.

(** X8 at [task0] posted twice to [agent0]. *)
Lemma second_receive_hides_first_job_witness :
  let a2 := fst (create_task (fst (create_task agent0 task0 1)) task0 2) in
  stored_task (run_background a2 3) "t1"
    = Some (update_status task0 IN_PROGRESS 2).
Proof.
  cbn zeta.
  destruct (accept_when_valid agent0 task0 1) as (a1 & r1 & H1);
    [reflexivity|vm_compute; eauto|].
  destruct (accept_again agent0 task0 1 a1 r1 2 H1) as (a2 & r2 & H2).
  rewrite (create_task_fst _ _ _ _ _ H1), (create_task_fst _ _ _ _ _ H2).
  exact (proj1 (proj2 (proj2
    (second_receive_hides_first_job agent0 task0 1 2 3 a1 r1 a2 r2
       eq_refl H1 H2)))).
Defined.

(** X9 at [agent0] and the type ["echo"], registered again. *)
Lemma last_registered_handler_wins_witness :
  register_task_handler (register_task_handler agent0 "echo" returning)
    "echo" (raising "no")
  = register_task_handler agent0 "echo" (raising "no").
Proof.
  exact (proj1 (last_registered_handler_wins agent0 "echo" returning
                  (raising "no") task0 1 eq_refl eq_refl)).
Defined.

End AgentExtrasExamples.

(* ===================================================================== *)
(** ** Further properties: hashtags and adapted texts *)
(* ===================================================================== *)

Section AdapterExtras.
Implicit Types (s text : str) (c : ascii).

Lemma word_run_all_word s : forallb is_word_char (word_run s) = true.
Proof.
  induction s as [|c s IH]; [done|]. cbn.
  destruct (is_word_char c) eqn:E; [|done]. cbn. by rewrite E.
Qed.

(** X10.  Every hashtag [extract_hashtags] returns is a non-empty run of
    word characters: no tag is empty, none holds a ['#'], a space or
    punctuation. *)
Theorem extract_hashtags_word_runs text :
  Forall (fun tag => tag <> [] /\ forallb is_word_char tag = true)
         (extract_hashtags text).
Proof.
  unfold extract_hashtags. generalize 0%nat as skip.
  induction text as [|c rest IH]; intros skip; cbn; [done|].
  destruct skip as [|k]; [|apply IH].
  destruct (Ascii.eqb c "#"%char); [|apply IH].
  destruct (word_run rest) as [|x word] eqn:Hrun; [apply IH|].
  constructor; [|apply IH]. split; [done|].
  rewrite <- Hrun. apply word_run_all_word.
Qed.

(** A text is its leading word characters and a rest that starts with
    none. *)
Lemma word_run_prefix s :
  exists tail, s = (word_run s ++ tail)%list /\ word_run tail = [].
Proof.
  induction s as [|c s (tail & Hs & Ht)]; [by exists []|]. cbn.
  destruct (is_word_char c) eqn:E.
  - exists tail. cbn. by rewrite <- Hs.
  - exists (c :: s). cbn. by rewrite E.
Qed.

Lemma sub_skip (word tail : str) :
  sub_hashtags (length word) (word ++ tail) = sub_hashtags 0 tail.
Proof. induction word as [|c word IH]; [done|]. cbn. apply IH. Qed.

(** What remains after [re.sub] starts with no word character when the
    text did not, and holds no hashtag; by induction on a bound of the
    length, as the scan resumes behind each match. *)
Lemma sub_hashtags_clean (n : nat) : forall s, (length s <= n)%nat ->
  (word_run s = [] -> word_run (sub_hashtags 0 s) = []) /\
  findall_hashtags 0 (sub_hashtags 0 s) = [].
Proof.
  induction n as [|n IH]; intros s Hn.
  - destruct s; [done|cbn in Hn; lia].
  - destruct s as [|c rest]; [done|]. cbn in Hn. cbn.
    destruct (IH rest ltac:(lia)) as [IHhead IHtags].
    destruct (Ascii.eqb_spec c "#"%char) as [->|Hc].
    + destruct (word_run_prefix rest) as (tail & Hrest & Htail).
      destruct (word_run rest) as [|x word] eqn:Hrun.
      * split; [done|]. cbn. by rewrite (IHhead eq_refl).
      * pose proof (sub_skip (x :: word) tail) as Hs.
        rewrite <- Hrest in Hs. cbn [length] in Hs |- *. rewrite Hs.
        assert (Hlen : (length tail <= n)%nat).
        { rewrite Hrest, length_app in Hn. cbn in Hn. lia. }
        destruct (IH tail Hlen) as [IHh IHt]. split; [|done].
        intros _. by apply IHh.
    + cbn. destruct (Ascii.eqb_spec c "#"%char) as [|_]; [done|].
      split; [|done]. by destruct (is_word_char c).
Qed.

Lemma sub_hashtags_no_match s :
  findall_hashtags 0 s = [] -> sub_hashtags 0 s = s.
Proof.
  induction s as [|c rest IH]; [done|]. cbn.
  destruct (Ascii.eqb c "#"%char).
  - destruct (word_run rest); [|done]. intros H. by rewrite IH.
  - intros H. by rewrite IH.
Qed.

Lemma word_run_app_nil s t :
  word_run s = [] -> s <> [] -> word_run (s ++ t) = [].
Proof. destruct s as [|c s]; [done|]. cbn. by destruct (is_word_char c). Qed.

(** Cutting the end off a text brings no hashtag into it. *)
Lemma findall_prefix_nil s t skip :
  findall_hashtags skip (s ++ t) = [] -> findall_hashtags skip s = [].
Proof.
  revert skip. induction s as [|c rest IH]; intros skip; [done|]. cbn.
  destruct skip as [|k]; [|apply IH].
  destruct (Ascii.eqb c "#"%char); [|apply IH].
  destruct (word_run rest) as [|x word] eqn:Hrun.
  - destruct rest as [|c' rest']; [done|].
    rewrite (word_run_app_nil (c' :: rest') t) by done. apply IH.
  - destruct rest as [|c' rest']; [done|]. cbn in Hrun |- *.
    destruct (is_word_char c'); done.
Qed.

Lemma is_space_not_hash c : is_space c = true -> Ascii.eqb c "#"%char = false.
Proof.
  destruct (Ascii.eqb_spec c "#"%char) as [->|]; [|done]. by vm_compute.
Qed.

Lemma findall_lstrip s :
  findall_hashtags 0 s = [] -> findall_hashtags 0 (lstrip s) = [].
Proof.
  induction s as [|c rest IH]; [done|]. cbn [lstrip].
  destruct (is_space c) eqn:E; [|done].
  cbn. by rewrite is_space_not_hash.
Qed.

Lemma lstrip_suffix s : exists spaces, s = (spaces ++ lstrip s)%list.
Proof.
  induction s as [|c rest [spaces IH]]; [by exists []|]. cbn.
  destruct (is_space c); [|by exists []].
  exists (c :: spaces). cbn. by rewrite <- IH.
Qed.

Lemma findall_strip s :
  findall_hashtags 0 s = [] -> findall_hashtags 0 (strip s) = [].
Proof.
  intros H. apply findall_lstrip in H. unfold strip.
  destruct (lstrip_suffix (rev (lstrip s))) as [spaces Hs].
  apply (f_equal (@rev ascii)) in Hs.
  rewrite rev_involutive, rev_app_distr in Hs.
  rewrite Hs in H. by apply findall_prefix_nil in H.
Qed.

(** X11.  The cleaned body holds no hashtag: [extract_hashtags] finds
    none in the text [re.sub] returns, nor in that text stripped, and
    removing hashtags a second time changes nothing. *)
Theorem cleaned_text_has_no_hashtag text :
  extract_hashtags (sub_hashtags 0 text) = [] /\
  extract_hashtags (strip (sub_hashtags 0 text)) = [] /\
  sub_hashtags 0 (sub_hashtags 0 text) = sub_hashtags 0 text.
Proof.
  destruct (sub_hashtags_clean (length text) text (le_n _)) as [_ H].
  split_and!; [exact H|by apply findall_strip|by apply sub_hashtags_no_match].
Qed.

Lemma format_template tag :
  format Examples.hashtag_template tag = Some ("#"%char :: tag).
Proof. unfold format. cbn. by rewrite app_nil_r. Qed.

(** With the template ["#{}"] each tag gets a ['#'] in front. *)
Lemma format_hashtags_template tags :
  format_hashtags tags Examples.hashtag_template
    = Some (map (cons "#"%char) tags).
Proof.
  induction tags as [|tag tags IH]; [done|]. cbn [format_hashtags].
  by rewrite format_template, IH.
Qed.

Lemma adaptation_rules_template p :
  hashtag_format (Scheduler.adaptation_rules p) = Examples.hashtag_template.
Proof. by destruct p. Qed.

(** Under the agent's rules the adaptation returns. *)
Lemma adapt_under_rules raw_text image_reference p :
  is_Some (adapt_content_for_platform raw_text image_reference p
             (Scheduler.adaptation_rules p)).
Proof.
  unfold adapt_content_for_platform.
  rewrite adaptation_rules_template, format_hashtags_template.
  destruct p, (has_image image_reference) eqn:Himg;
    unfold adapt_metadata; cbn; rewrite ?Himg; cbn; by eexists.
Qed.

(** X12.  Under the agent's own rules [adapt_content_for_platform]
    returns content for every text, image reference and platform, never
    an exception.  The content names the platform, carries the image
    reference unchanged and the hashtags without ['#'], its text is built
    from the tags with a ['#'] in front, and its metadata is the warning
    for Instagram without an image, the image count for Twitter with one,
    and empty otherwise. *)
Theorem adapt_under_agent_rules raw_text image_reference p :
  exists content,
    adapt_content_for_platform raw_text image_reference p
      (Scheduler.adaptation_rules p) = Some content /\
    psc_platform content = p /\
    hashtags content = extract_hashtags raw_text /\
    psc_image_reference content = image_reference /\
    text content
      = adapt_text (extract_hashtags raw_text)
          (map (cons "#"%char) (extract_hashtags raw_text))
          (strip (sub_hashtags 0 raw_text))
          (max_text_length (Scheduler.adaptation_rules p)) /\
    psc_metadata content =
      match p, has_image image_reference with
      | INSTAGRAM, false =>
          [("warning", JStr "Instagram requires an image for posts")]
      | TWITTER, true => [("images_count", JNum 1)]
      | _, _ => []
      end.
Proof.
  unfold adapt_content_for_platform.
  rewrite adaptation_rules_template, format_hashtags_template.
  destruct p, (has_image image_reference) eqn:Himg;
    unfold adapt_metadata; cbn; rewrite ?Himg; cbn;
    (eexists; split_and!; [reflexivity|..]; reflexivity).
Qed.

Section Bounds.
#[local] Open Scope Z_scope.

Lemma len_ellipsis : len ellipsis = 3.
Proof. reflexivity. Qed.

Lemma truncate_text_bound text max_length :
  0 <= max_length -> len (truncate_text text max_length) <= max_length + 3.
Proof.
  intros H0. destruct (Z_le_gt_dec (len text) max_length) as [Hfit|Hcut].
  - rewrite truncate_text_fits by done. lia.
  - destruct (truncate_text_cuts text max_length H0 ltac:(lia))
      as (n & -> & Hn & _).
    rewrite len_app, len_ellipsis. unfold len. rewrite length_take. lia.
Qed.

(** X13.  [truncate_text] returns at most three characters more than the
    limit it is given, and so does the adaptation: when there are no
    hashtags, or the hashtags and a space fit the limit, the adapted text
    has at most [max_text_length + 3] characters. *)
Theorem adapted_text_overshoot_at_most_three raw_text image_reference p rules
    (content : PlatformSpecificContent) formatted :
  adapt_content_for_platform raw_text image_reference p rules = Some content ->
  format_hashtags (extract_hashtags raw_text) (hashtag_format rules)
    = Some formatted ->
  0 <= max_text_length rules ->
  extract_hashtags raw_text = [] \/
    len (join_space formatted) + 1 <= max_text_length rules ->
  len (truncate_text (strip (sub_hashtags 0 raw_text)) (max_text_length rules))
    <= max_text_length rules + 3 /\
  len (text content) <= max_text_length rules + 3.
Proof.
  intros Hc Hf Hmax Hcase. split; [by apply truncate_text_bound|].
  unfold adapt_content_for_platform in Hc. rewrite Hf in Hc.
  destruct (adapt_metadata _ _ _); [|done]. injection Hc as <-. cbn [text].
  pose proof (adapt_text_shape (extract_hashtags raw_text) formatted
                (strip (sub_hashtags 0 raw_text)) (max_text_length rules))
    as Hshape. cbn zeta in Hshape.
  set (hashtags := extract_hashtags raw_text) in *.
  set (budget := match hashtags with [] => _ | _ => _ end) in *.
  assert (Hb : 0 <= budget /\
             (hashtags = [] /\ budget = max_text_length rules \/
              hashtags <> [] /\
              budget = max_text_length rules - len (join_space formatted) - 1)).
  { subst budget. destruct hashtags as [|h hs] eqn:E.
    - split; [done|]. by left.
    - destruct Hcase as [|Hroom]; [done|]. unfold content_budget.
      rewrite (proj2 (Z.ltb_ge _ 0)) by lia.
      split; [lia|]. by right. }
  destruct Hb as [Hb0 Hb].
  pose proof (truncate_text_bound (strip (sub_hashtags 0 raw_text)) budget Hb0)
    as Hbody.
  destruct Hshape as [->|[(Hne & Hnil & ->)|[Hne ->]]].
  - destruct Hb as [[_ Hb]|[_ Hb]]; unfold len in *; lia.
  - destruct Hb as [[? _]|[_ Hb]]; [done|]. unfold len in *. lia.
  - destruct Hb as [[? _]|[_ Hb]]; [done|].
    rewrite len_app. unfold len in *. cbn [length]. lia.
Qed.

End Bounds.

End AdapterExtras.

Section AdapterExtrasExamples.
Import Examples.
#[local] Open Scope Z_scope.

(** X13 at a body of fifteen characters, one hashtag and a limit of 12:
    the adapted text ["abcdefg... #a"] has 13 characters. *)
Lemma adapted_text_overshoot_at_most_three_witness :
  len (list_ascii_of_string "abcdefg... #a") <= 12 + 3.
Proof.
  refine (proj2 (adapted_text_overshoot_at_most_three
           (list_ascii_of_string "abcdefg hij klm #a") None FACEBOOK
           (rules_with_limit 12)
           (mkPlatformSpecificContent FACEBOOK
              (list_ascii_of_string "abcdefg... #a") None None
              [list_ascii_of_string "a"] [])
           [list_ascii_of_string "#a"] _ _ _ _)).
  - vm_compute. reflexivity.
  - vm_compute. reflexivity.
  - vm_compute. discriminate.
  - right. vm_compute. discriminate.
Defined.

End AdapterExtrasExamples.

(* ===================================================================== *)
(** ** Further properties: the post store and the request validation *)
(* ===================================================================== *)

Section StoreExtras.
Implicit Types (w : World) (post : ScheduledPost) (id : string).

Lemma set_post_id_same post : set_post_id post (post_id post) = post.
Proof. by destruct post. Qed.

Lemma get_post_storage w w' id :
  post_storage w = post_storage w' -> get_post w id = get_post w' id.
Proof. intros H. unfold get_post. by rewrite H. Qed.

Lemma with_post_storage_same w : with_post_storage w (post_storage w) = w.
Proof. by destruct w. Qed.

(** X14.  [save_post] then [get_post]: the document is stored under the
    post's id, and reading it back gives the post itself when the
    document validates on load (its credentials are a dict of dicts,
    its platform post ids are strings), and nothing otherwise.  No other id reads differently after the save. *)
Theorem save_post_get_post_round_trip w post id :
  get_post (fst (save_post w post)) (post_id post)
    = (if validates post then Some post else None) /\
  post_storage (fst (save_post w post)) !! post_id post = Some post /\
  (id <> post_id post ->
   get_post (fst (save_post w post)) id = get_post w id).
Proof.
  unfold get_post, save_post, Storage.find_one, Storage.replace_one_upsert.
  cbn. split_and!.
  - rewrite lookup_insert_eq. unfold _dict_to_post, validates.
    by rewrite set_post_id_same.
  - apply lookup_insert_eq.
  - intros Hne. by rewrite lookup_insert_ne.
Qed.

(** X15.  [delete_post] removes the document of that id and nothing else:
    the id reads as absent afterwards, the result is [True] exactly when a
    document was there, a store without the id is left as it was, other
    ids read as before, and neither the scheduler's jobs nor the publish
    queue are touched, so a job registered for the post stays. *)
Theorem delete_post_removes_document_only w id id' :
  get_post (fst (delete_post w id)) id = None /\
  (snd (delete_post w id) = true <-> is_Some (post_storage w !! id)) /\
  (post_storage w !! id = None -> fst (delete_post w id) = w) /\
  (id' <> id -> get_post (fst (delete_post w id)) id' = get_post w id') /\
  scheduler (fst (delete_post w id)) = scheduler w /\
  _publish_queue (fst (delete_post w id)) = _publish_queue w.
Proof.
  unfold delete_post, delete_one, get_post, Storage.find_one.
  destruct (post_storage w !! id) as [doc|] eqn:Hl; cbn.
  - rewrite lookup_delete_eq. split_and!; [done| |done| |done|done].
    + split; [by eexists|done].
    + intros Hne. by rewrite lookup_delete_ne.
  - rewrite Hl. split_and!; [done| | |done|done|done].
    + split; [done|]. by intros [? ?].
    + intros _. apply with_post_storage_same.
Qed.

End StoreExtras.

Section ValidateExtras.
Variable lib : Library.

(** X16.  A list of platform names never makes the parsing loop raise: a
    name that is no platform value after lower-casing is dropped, the
    others are kept in order; and every platform is parsed back from its
    own value. *)
Theorem parse_platforms_of_names (names : list string) (p : SocialPlatform) :
  parse_platforms lib (map JStr names)
    = inr (omap (fun name => SocialPlatform_of_value (lower name)) names) /\
  SocialPlatform_of_value (lower (SocialPlatform_value p)) = Some p.
Proof.
  split.
  - induction names as [|name names IH]; [done|]. cbn. rewrite IH.
    by destruct (SocialPlatform_of_value (lower name)).
  - by destruct p.
Qed.

(** X17.  What the handler has checked when the validation part of
    [_handle_process_schedule_post] passes: the task has a JSON data part,
    [user_id] and [raw_text] are taken from it and truthy, the target
    platforms are iterable and at least one of them is valid, and the
    schedule time is a string that parses after ['Z'] has been replaced
    by ['+00:00']. *)
Theorem validated_request_is_complete task v :
  validate lib task = inr v ->
  exists data_part s items,
    extract_data_part_by_content_type (data_parts task) "application/json"
      = Some data_part /\
    v_user_id v = dict_get (data data_part) "user_id" /\
    v_raw_text v = dict_get (data data_part) "raw_text" /\
    truthy (v_user_id v) = true /\ truthy (v_raw_text v) = true /\
    iterate (dict_get_default (data data_part) "target_platforms" (JList []))
      = Some items /\
    parse_platforms lib items = inr (v_platform_list v) /\
    v_platform_list v <> [] /\
    dict_get (data data_part) "schedule_time" = JStr s /\
    fromisoformat lib (replace_char s "Z" "+00:00") = Some (v_schedule_time v).
Proof.
  unfold validate.
  destruct (extract_data_part_by_content_type _ _) as [dp|]; [|done].
  destruct (truthy (dict_get (data dp) "user_id")) eqn:Hu; [|done].
  destruct (truthy (dict_get (data dp) "raw_text")) eqn:Hr; [|done].
  destruct (truthy (dict_get_default _ "target_platforms" _)); [|done].
  destruct (truthy (dict_get (data dp) "schedule_time")); [|done].
  cbn [negb].
  destruct (iterate _) as [items|] eqn:Hi; [|done].
  destruct (parse_platforms lib items) as [e|[|p ps]] eqn:Hp; [done|done|].
  destruct (dict_get (data dp) "schedule_time") as [| | |s| |] eqn:Hs; try done.
  destruct (fromisoformat lib _) as [t|] eqn:Ht; [|done].
  intros [= <-]. cbn. exists dp, s, items. split_and!; done.
Qed.

End ValidateExtras.

Section ValidateExtrasExamples.
Import Examples.

(** X17 at a request for Facebook and an unknown platform. *)
Lemma validated_request_is_complete_witness :
  validate lib_lenient task_valid_request = inr validated_request /\
  v_platform_list validated_request <> [].
Proof.
  assert (H : validate lib_lenient task_valid_request = inr validated_request)
    by (vm_compute; reflexivity).
  split; [exact H|].
  destruct (validated_request_is_complete lib_lenient task_valid_request
              validated_request H)
    as (data_part & s & items & _ & _ & _ & _ & _ & _ & _ & Hne & _).
  exact Hne.
Defined.

End ValidateExtrasExamples.

(* ===================================================================== *)
(** ** Further properties: the content scheduler's handlers *)
(* ===================================================================== *)

Section HandlerExtras.
Import Models Agent ContentModels Adapters Observe Utils Scheduler.
Implicit Types (w : World) (post : ScheduledPost) (id : string).
Variable lib : Library.

(** The adaptation loop under the agent's rules: it cannot raise, and it
    changes nothing of the post but the adapted contents, of which there
    is one for each platform of the list. *)
Lemma adapt_all_ok raw_text image_reference platforms post w :
  exists contents,
    adapt_all lib raw_text image_reference platforms post w
      = Ok (set_platform_specific_content post contents) w /\
    (forall plat, plat ∈ platforms ->
       is_Some (contents !! SocialPlatform_value plat)) /\
    (forall key, is_Some (platform_specific_content post !! key) ->
       is_Some (contents !! key)).
Proof.
  revert post. induction platforms as [|plat platforms IH]; intros post.
  - exists (platform_specific_content post). split_and!.
    + cbn. unfold ret. by destruct post.
    + intros plat Hin. by apply elem_of_nil in Hin.
    + done.
  - cbn [adapt_all].
    destruct (adapt_under_rules (list_ascii_of_string raw_text)
                image_reference plat) as [c ->].
    destruct (IH (set_platform_specific_content post
                    (<[SocialPlatform_value plat := c]>
                       (platform_specific_content post))))
      as (contents & -> & Hall & Hkeep).
    exists contents. split_and!; [done| |].
    + intros plat' Hin. apply elem_of_cons in Hin as [->|Hin]; [|by apply Hall].
      apply Hkeep. cbn. rewrite lookup_insert_eq. by eexists.
    + intros key Hk. apply Hkeep. cbn. rewrite lookup_insert.
      destruct (decide _); [by eexists|done].
Qed.

Lemma metadata_set_twice task k1 v1 k2 v2 :
  exists m,
    metadata (metadata_set (metadata_set task k1 v1) k2 v2)
      = Some (<[k2 := v2]> (<[k1 := v1]> m)).
Proof.
  unfold metadata_set at 1. cbn [metadata set_metadata].
  destruct (metadata_set_lookup task k1 v1) as (m1 & Hm1 & _).
  unfold metadata_set in *. cbn in Hm1 |- *. eexists.
  assert (forall m : gmap string json,
            Nat.eqb (size (<[k1 := v1]> m)) 0 = false) as ->; [|done].
  intros m. apply Nat.eqb_neq. intros Hz.
  apply map_size_empty_iff in Hz. by apply insert_non_empty in Hz.
Qed.


Lemma handle_process_schedule_post_returns task w now :
  snd (_handle_process_schedule_post lib task w now) = Returns.
Proof.
  unfold _handle_process_schedule_post.
  destruct (validate lib task); [done|].
  by destruct (schedule_validated _ _ _ _ _).
Qed.

Lemma handle_post_status_update_returns task w now :
  snd (_handle_post_status_update lib task w now) = Returns.
Proof.
  unfold _handle_post_status_update.
  destruct (extract_data_part_by_content_type _ _) as [data_part|]; [|done].
  repeat (match goal with |- context [if negb ?b then _ else _] =>
            destruct b; cbn [negb]; [|done] end).
  match goal with |- context [match ?g with Some _ => _ | None => _ end] =>
    destruct g as [post|]; [|done] end.
  destruct (_ && _); [|done].
  by destruct (dict_get _ "platform").
Qed.

Lemma content_scheduler_handlers w ty (h : Handler World) :
  task_handlers (ContentSchedulerAgent lib w) !! ty = Some h ->
  h = _handle_process_schedule_post lib \/ h = _handle_post_status_update lib.
Proof.
  unfold ContentSchedulerAgent, register_task_handler, with_handlers. cbn.
  intros H. apply lookup_insert_Some in H as [[_ <-]|[_ H]]; [by right|].
  apply lookup_insert_Some in H as [[_ <-]|[_ H]]; [by left|].
  by rewrite lookup_empty in H.
Qed.

(** X19.  Both handlers of the content scheduler catch every exception
    themselves, so a task the agent accepts never ends [FAILED] through
    [_process_task]: it is stored [IN_PROGRESS], and once the background
    job has run its status is [COMPLETED], whatever the request held and
    whatever the store and the library did. *)
Theorem content_scheduler_task_always_completed w task now now' a' r :
  _handle_incoming_task (ContentSchedulerAgent lib w) task now = inr (a', r) ->
  status <$> stored_task a' (task_id task) = Some IN_PROGRESS /\
  status <$> stored_task (run_background a' now') (task_id task)
    = Some COMPLETED /\
  background (run_background a' now') = [].
Proof.
  intros H.
  pose proof (stored_after_accept _ _ _ _ _ H) as (Hh & Ht & Hb & Hth & _ & _).
  destruct (create_task_accept _ _ _ _ _ H) as [_ Hst].
  split; [by rewrite Hst|].
  assert (exists h, task_handlers a' !! type task = Some h /\
            (h = _handle_process_schedule_post lib \/
             h = _handle_post_status_update lib)) as (h & Hl & Hcase).
  { revert H. unfold _handle_incoming_task. destruct (negb _); [done|].
    destruct (task_handlers _ !! type task) as [h|] eqn:Hl; [|done].
    intros _. exists h. rewrite Hth. split; [done|].
    by eapply content_scheduler_handlers. }
  unfold run_background, stored_task. rewrite Hb. cbn.
  rewrite Hh. unfold _process_task. cbn.
  change (type (update_status task IN_PROGRESS now)) with (type task).
  unfold Handler in *. rewrite Hl.
  assert (Hret : forall t w0 n, snd (h t w0 n) = Returns).
  { destruct Hcase as [-> | ->]; intros;
      [apply handle_process_schedule_post_returns
      |apply handle_post_status_update_returns]. }
  specialize (Hret (update_status task IN_PROGRESS now) (ext a') now').
  destruct (h _ _ _) as [[t1 w1] o]. cbn in Hret. subst o. cbn.
  rewrite Ht, lookup_insert_eq. cbn. rewrite lookup_insert_eq. done.
Qed.

End HandlerExtras.

Section HandlerExtrasExamples.
Import Models Agent ContentModels Adapters Observe Utils Scheduler Examples.


(** X19 at a request without a data part: it fails validation and the
    task still ends [COMPLETED]. *)
Lemma content_scheduler_task_always_completed_witness :
  exists a' r,
    _handle_incoming_task (ContentSchedulerAgent lib0 world0) task_no_data 5%Z
      = inr (a', r) /\
    status <$> stored_task (run_background a' 9%Z) "t1" = Some COMPLETED.
Proof.
  destruct (accept_when_valid (ContentSchedulerAgent lib0 world0)
              task_no_data 5%Z) as (a' & r & H).
  - reflexivity.
  - unfold ContentSchedulerAgent, register_task_handler. cbn.
    rewrite lookup_insert_ne by done. rewrite lookup_insert_eq. by eexists.
  - exists a', r. split; [exact H|].
    exact (proj1 (proj2 (content_scheduler_task_always_completed lib0 world0
                           task_no_data 5%Z 9%Z a' r H))).
Defined.

End HandlerExtrasExamples.

(* ===================================================================== *)
(** ** Further properties: publication and the reports on it *)
(* ===================================================================== *)

Section PublishExtras.
Import Models Agent ContentModels Adapters Observe Utils Scheduler.
Implicit Types (w : World) (post : ScheduledPost) (id : string).

(** X20.  [_publish_post] in full.  For an id [get_post] does not return,
    nothing happens at all.  For a post it returns, the events are the
    save with status [PUBLISHED] followed by one [publish_post] task for
    each target platform that has adapted content, in the order of the
    target platforms and whatever the outcome of each send; the
    scheduler's jobs are unchanged, and the post reads back as published
    with the new update time. *)
Theorem publish_post_sends_one_task_per_platform w id now :
  match get_post w id with
  | None => _publish_post w id now = w
  | Some post =>
      trace (_publish_post w id now)
        = (trace w ++ Post_saved id PUBLISHED :: publish_sends post)%list /\
      scheduler (_publish_post w id now) = scheduler w /\
      get_post (_publish_post w id now) id
        = Some (set_post_updated_at (set_post_status post PUBLISHED) now)
  end.
Proof.
  destruct (get_post w id) as [post|] eqn:Hg.
  - destruct (publish_post_exact w id now post Hg) as (Ht & Hs & _ & Hg').
    done.
  - unfold _publish_post. by rewrite Hg.
Qed.

(** X21.  [_publish_post] does not look at the post's status: called a
    second time for the same id it saves the post again and sends the
    same publish tasks again. *)
Theorem publish_post_twice_sends_twice w id now now' post :
  get_post w id = Some post ->
  trace (_publish_post (_publish_post w id now) id now')
    = (trace w ++ (Post_saved id PUBLISHED :: publish_sends post)
               ++ (Post_saved id PUBLISHED :: publish_sends post))%list.
Proof.
  intros Hg.
  destruct (publish_post_exact w id now post Hg) as (Ht1 & _ & _ & Hg1).
  destruct (publish_post_exact _ id now' _ Hg1) as (Ht2 & _).
  cbn zeta in *. rewrite Ht2, Ht1, <- app_assoc. done.
Qed.

End PublishExtras.

Section PublishExtrasExamples.
Import Models Agent ContentModels Adapters Observe Utils Scheduler Examples.

(** X21 at [post1] in [world0]: two saves and two tasks for facebook. *)
Lemma publish_post_twice_sends_twice_witness :
  publish_calls "p1" (trace (_publish_post (_publish_post world0 "p1" 5%Z)
                               "p1" 6%Z)) = 0%nat /\
  length (trace (_publish_post (_publish_post world0 "p1" 5%Z) "p1" 6%Z))
    = 4%nat.
Proof.
  rewrite (publish_post_twice_sends_twice world0 "p1" 5%Z 6%Z post1);
    [|vm_compute; reflexivity].
  split; vm_compute; reflexivity.
Defined.

End PublishExtrasExamples.

Section ReportExtras.
Import Models Agent ContentModels Adapters Observe Utils Scheduler.
Implicit Types (w : World) (post : ScheduledPost) (id : string).
Variable lib : Library.

Lemma truthy_JStr s : s <> "" -> truthy (JStr s) = true.
Proof. intros H. cbn. by destruct (String.eqb_spec s ""). Qed.

(** X22.  The reports the Facebook agent builds in
    [_send_post_status_update], handled by [_handle_post_status_update]
    for a stored post.  A ["success"] report with a post id records that
    id under ["facebook"] in the post's [platform_post_ids]; a
    ["failure"] report changes nothing of the post but its update time,
    whatever the error message: the message is not stored.  In both cases
    the post is saved and the task is left as it was. *)
Theorem facebook_report_is_recorded w post id fb_id message dp_id
    (task : Task) now :
  get_post w id = Some post -> id <> "" -> fb_id <> "" ->
  let success :=
    Facebook.status_update_part dp_id
      (Facebook.status_update_data (JStr id) "success" (JStr fb_id) JNull) in
  let failure :=
    Facebook.status_update_part dp_id
      (Facebook.status_update_data (JStr id) "failure" JNull (JStr message)) in
  let report part :=
    mkTask (task_id task) (type task) (status task) (created_at task)
      (updated_at task) (source_agent_id task) (target_agent_id task)
      [part] (parent_task_id task) (metadata task) in
  let after part :=
    snd (fst (_handle_post_status_update lib (report part) w now)) in
  post_storage (after success) !! id
    = Some (set_post_updated_at
              (set_platform_post_ids post
                 (<["facebook" := JStr fb_id]> (platform_post_ids post))) now) /\
  post_storage (after failure) !! id = Some (set_post_updated_at post now) /\
  fst (fst (_handle_post_status_update lib (report success) w now))
    = report success /\
  fst (fst (_handle_post_status_update lib (report failure) w now))
    = report failure.
Proof.
  intros Hg Hid Hfb. cbn zeta.
  pose proof (truthy_JStr id Hid) as Tid. pose proof (truthy_JStr fb_id Hfb) as Tfb.
  destruct (get_post_Some _ _ _ Hg) as (doc & Hd & Hp).
  assert (Hpid : post_id post = id) by by rewrite Hp.
  unfold _handle_post_status_update, Facebook.status_update_part,
    Facebook.status_update_data.
  cbn [data_parts extract_data_part_by_content_type content_type String.eqb
       Ascii.eqb Bool.eqb data].
  rewrite Tfb. cbn [truthy app].
  split_and!.
  - cbn [dict_get String.eqb Ascii.eqb Bool.eqb]. rewrite Tid, Tfb. cbn.
    rewrite Hg. cbn. unfold Storage.replace_one_upsert. rewrite Hpid.
    apply lookup_insert_eq.
  - destruct (truthy (JStr message)); cbn [app dict_get String.eqb Ascii.eqb
      Bool.eqb]; rewrite Tid; cbn; rewrite Hg; cbn;
      unfold Storage.replace_one_upsert; rewrite Hpid; apply lookup_insert_eq.
  - cbn [dict_get String.eqb Ascii.eqb Bool.eqb]. rewrite Tid, Tfb. cbn.
    rewrite Hg. done.
  - destruct (truthy (JStr message)); cbn [app dict_get String.eqb Ascii.eqb
      Bool.eqb]; rewrite Tid; cbn; rewrite Hg; done.
Qed.

End ReportExtras.

Section EndToEnd.
Import Models Agent ContentModels Adapters Observe Utils Scheduler.
Implicit Types (w : World) (post : ScheduledPost) (id : string).

Lemma publish_post_wrapper_keeps w id :
  post_storage (publish_post_wrapper w id) = post_storage w /\
  trace (publish_post_wrapper w id) = trace w.
Proof. unfold publish_post_wrapper. by destruct (_publish_queue w). Qed.

(** X23.  From scheduling to publication.  A stored post is scheduled,
    its job fires once, and one pass of the drain loop runs, the queue
    having been empty before: the firing leaves exactly the post's id on
    the queue; the pass calls the publish handler once, which saves the
    post as published and sends one task for each platform with adapted
    content, and then removes the id; afterwards the post reads as
    [PUBLISHED], the job is gone, the queue is empty, and a further pass
    does nothing. *)
Theorem scheduled_post_is_published_once w post now now' :
  get_post w (post_id post) = Some post ->
  default [] (_publish_queue w) = [] ->
  let id := post_id post in
  let job_id := "publish_post_" ++ id in
  let fired := fire (_schedule_post_publication w post) job_id in
  let drained := drain_pass fired now in
  _publish_queue fired = Some [id] /\
  trace drained
    = (trace w ++ Publish_called id :: Post_saved id PUBLISHED
               :: publish_sends post ++ [Queue_removed id])%list /\
  post_status <$> get_post drained id = Some PUBLISHED /\
  scheduler drained !! job_id = None /\
  _publish_queue drained = Some [] /\
  drain_pass drained now' = drained.
Proof.
  intros Hg Hq. cbn zeta.
  set (id := post_id post) in *. set (job_id := "publish_post_" ++ id).
  set (scheduled := _schedule_post_publication w post).
  assert (Hjob : scheduler scheduled !! job_id
                 = Some (mkJob (schedule_time post) [id])).
  { unfold scheduled, _schedule_post_publication, add_job_replace_existing.
    cbn. apply lookup_insert_eq. }
  rewrite (fire_present scheduled job_id _ id Hjob eq_refl).
  set (unscheduled := with_scheduler scheduled _).
  set (fired := publish_post_wrapper unscheduled id).
  destruct (publish_post_wrapper_spec unscheduled id) as [Hfq Hfs].
  destruct (publish_post_wrapper_keeps unscheduled id) as [Hfp Hft].
  fold fired in Hfq, Hfs, Hfp, Hft.
  change (_publish_queue unscheduled) with (_publish_queue w) in Hfq.
  rewrite Hq in Hfq. cbn [app] in Hfq.
  change (post_storage unscheduled) with (post_storage w) in Hfp.
  change (trace unscheduled) with (trace w) in Hft.
  assert (Hfsched : scheduler fired !! job_id = None).
  { rewrite Hfs. cbn. apply lookup_delete_eq. }
  split; [exact Hfq|].
  pose (called := record fired (Publish_called id)).
  assert (Hgc : get_post called id = Some post).
  { rewrite <- Hg. apply get_post_storage. cbn. exact Hfp. }
  destruct (publish_post_exact called id now post Hgc)
    as (Ht & Hs & Hpq & Hgp). cbn zeta in Ht, Hs, Hpq, Hgp.
  set (published := _publish_post called id now) in *.
  change (_publish_queue called) with (_publish_queue fired) in Hpq.
  rewrite Hfq in Hpq.
  assert (Hdr : drain_pass fired now
                = record (with_publish_queue published (Some []))
                    (Queue_removed id)).
  { unfold drain_pass. rewrite Hfq. cbn [fold_left]. unfold drain_entry.
    fold called. fold published. rewrite Hpq.
    cbv [default from_option Datatypes.id]. by rewrite list_remove_head. }
  rewrite Hdr. split_and!.
  - change (trace called) with (trace fired ++ [Publish_called id])%list in Ht.
    rewrite Hft in Ht. unfold record. destruct published; cbn in *.
    rewrite Ht, <- !app_assoc. done.
  - erewrite get_post_storage; [rewrite Hgp; done|done].
  - cbn. rewrite Hs. exact Hfsched.
  - reflexivity.
  - reflexivity.
Qed.

End EndToEnd.

Section ReportExamples.
Import Models Agent ContentModels Adapters Observe Utils Scheduler Examples.

(** X22 at [post1] in [world0], reported by the task [task_failure_report]
    with the Facebook id ["fb_1"]. *)
Lemma facebook_report_is_recorded_witness :
  let success :=
    Facebook.status_update_part "d1"
      (Facebook.status_update_data (JStr "p1") "success" (JStr "fb_1") JNull) in
  let report part :=
    mkTask "t9" "post_status_update" IN_PROGRESS 0 0 "facebook-posting-agent"
      "content-scheduler-agent" [part] None None in
  platform_post_ids
    <$> post_storage (snd (fst (_handle_post_status_update lib0 (report success)
                                  world0 8%Z))) !! "p1"
    = Some (<["facebook" := JStr "fb_1"]> (platform_post_ids post1)).
Proof.
  cbn zeta.
  destruct (facebook_report_is_recorded lib0 world0 post1 "p1" "fb_1" "boom"
              "d1" (mkTask "t9" "post_status_update" IN_PROGRESS 0 0
                      "facebook-posting-agent" "content-scheduler-agent"
                      [] None None) 8%Z) as (H & _).
  - vm_compute. reflexivity.
  - discriminate.
  - discriminate.
  - cbn zeta in H. cbn [task_id type status created_at updated_at
      source_agent_id target_agent_id parent_task_id metadata] in H.
    rewrite H. reflexivity.
Defined.

(** X23 at [post1] in the started [world0]. *)
Lemma scheduled_post_is_published_once_witness :
  let fired := fire (_schedule_post_publication (start world0) post1)
                 "publish_post_p1" in
  _publish_queue fired = Some ["p1"] /\
  post_status <$> get_post (drain_pass fired 5%Z) "p1" = Some PUBLISHED.
Proof.
  cbn zeta.
  destruct (scheduled_post_is_published_once (start world0) post1 5%Z 6%Z)
    as (Hq & _ & Hp & _).
  - vm_compute. reflexivity.
  - reflexivity.
  - split; [exact Hq|exact Hp].
Defined.

End ReportExamples.
